(** * saga-ts: the step-chaining engine and its compensation pass

    A shallow embedding of [SagaBuilder] (step, run, rollback) and
    [createSaga], and the properties of the engine stated over it.

    The caller-supplied [execute] and [rollback] operations are black
    boxes: functions on a [World] that either complete normally or throw.
    The engine threads the world through them in program order (one
    operation in flight at a time, as the awaits in the source impose) and
    every invocation it makes is recorded, with its arguments and its
    completion, in a call log. Statements about "which operation is
    invoked, when, with what" are statements about that log.

    Three operations of [run] can run code of the caller too, through
    the values it was handed: [error instanceof Error], [String(error)]
    and [results[step.name] = output]. They are operations of the [Host],
    on the same world: each may change it, and each may throw.

    Scope. Step code only reads the context it is handed.
    [console.error] is a log that accepts every line. The builder is not
    reachable from step code, so the steps of a run are those registered
    when it starts. *)

From stdpp Require Import gmap strings list fin_maps pretty.

Set Default Proof Using "Type".

(** ** Values *)

(** What the engine is run on: the world that the caller's code reads
    and writes, and the values the engine passes along. [Opaque] stands
    for every value other than [undefined], a string or an object created
    by the built-in [Error] constructors: null, booleans, numbers, arrays,
    objects of any kind. *)
Class Runtime := {
  World : Type;
  Opaque : Type
}.

Section Values.
Context `{Runtime}.

Inductive value :=
| VUndefined
| VString (s : string)
| VError (name message : string)   (* a built-in Error object *)
| VOpaque (o : Opaque).

(** [new Error(message)] *)
Definition new_Error (message : string) : value := VError "Error" message.

(** [error.message] *)
Definition message_of (v : value) : option string :=
  match v with VError _ message => Some message | _ => None end.

(** A JavaScript completion: a normal one carrying a result, or a throw
    completion carrying the thrown value (a rejected promise, once
    awaited). *)
Inductive Completion (A : Type) :=
| Normal (a : A)
| Throw (e : value).
Global Arguments Normal {A} a.
Global Arguments Throw {A} e.

End Values.

(** What the language makes of the engine's operations on values it did
    not create. Each runs in the world and may change it or throw.
    - [instance_of_Error o]: [o instanceof Error] (the prototype chain of
      [o] is walked; a proxy runs its trap);
    - [text_of o]: [String(o)] (the [toString] and [valueOf] of [o] are
      called; an object without them throws a TypeError);
    - [put name v]: [results[name] = v] on a results object that has no
      own property [name], where the prototype chain decides. [true]: an
      own property is created, as for an ordinary name on a plain object;
      [false]: none is created (an inherited setter took the value; under
      the name [__proto__] the prototype is replaced, or the value is
      ignored); a throw: the setter threw or the assignment was refused
      (a cyclic [__proto__], a read-only inherited property). *)
Class Host `{Runtime} := {
  instance_of_Error : Opaque → World → Completion bool * World;
  text_of : Opaque → World → Completion string * World;
  put : string → value → World → Completion bool * World
}.

(** [type StepContext = { results }]. The step is handed the results
    object itself; step code reads it and does not write to it, so the
    model hands over the own properties it has at the moment of the call,
    a finite map from property name to value. What the object inherits is
    part of the world. *)
Module StepContext.
Section Def.
Context `{Runtime}.
Record t := { results : gmap string value }.
End Def.
End StepContext.

Section Types.
Context `{Runtime}.

(** [type StepFunction = (input, ctx) => Promise<TOutput>] *)
Definition StepFunction : Type :=
  value → StepContext.t → World → Completion value * World.

(** [type RollbackFunction = (output) => Promise<void>] *)
Definition RollbackFunction : Type :=
  value → World → Completion unit * World.

(** [type SagaResult], a tagged union on [status]. *)
Inductive SagaResult :=
| Success (data : value) (results : gmap string value)
| Failed (error : value) (failedAt : string).

(** The own property names of a result object, as the two object
    literals of [run] list them. *)
Definition own_keys (r : SagaResult) : list string :=
  match r with
  | Success _ _ => ["status"; "data"; "results"]
  | Failed _ _ => ["status"; "error"; "failedAt"]
  end.
End Types.

(** [interface StepDefinition] *)
Module StepDefinition.
Section Def.
Context `{Runtime}.
Record t := {
  name : string;
  input : value;
  execute : StepFunction;
  rollback : option RollbackFunction
}.
End Def.
End StepDefinition.

(** The element type of [executedSteps] in [run] and [rollback]. *)
Module ExecutedStep.
Section Def.
Context `{Runtime}.
Record t := {
  name : string;
  output : value;
  rollback : option RollbackFunction
}.
End Def.
End ExecutedStep.

(** ** The machine the engine runs on *)

Section Machine.
Context `{Runtime}.

(** One invocation of a caller-supplied operation by the engine:
    [step.execute(step.input, ctx)] in [run], or
    [executedSteps[i].rollback(executedSteps[i].output)] in [rollback],
    each with the completion the await produced. *)
Inductive Call :=
| CallExecute (step : StepDefinition.t) (ctx : StepContext.t)
    (completion : Completion value)
| CallRollback (i : nat) (step : ExecutedStep.t)
    (completion : Completion unit).

Record Machine := {
  world : World;
  calls : list Call;                  (* oldest first *)
  console : list (string * value)     (* console.error lines, oldest first *)
}.

(** Computations of the engine: state passing over the machine, with
    throw completions. *)
Definition M (A : Type) : Type := Machine → Completion A * Machine.

Definition ret {A} (a : A) : M A := λ m, (Normal a, m).

Definition bind {A B} (c : M A) (k : A → M B) : M B :=
  λ m, match c m with
       | (Normal a, m') => k a m'
       | (Throw e, m') => (Throw e, m')
       end.

Definition throw {A} (e : value) : M A := λ m, (Throw e, m).

(** [try { body } catch (error) { handler }] *)
Definition try_catch {A} (body : M A) (handler : value → M A) : M A :=
  λ m, match body m with
       | (Normal a, m') => (Normal a, m')
       | (Throw e, m') => handler e m'
       end.

(** [await step.execute(step.input, ctx)] *)
Definition await_execute (step : StepDefinition.t) (ctx : StepContext.t)
  : M value :=
  λ m, let '(c, w) := StepDefinition.execute step
                        (StepDefinition.input step) ctx (world m) in
       (c, {| world := w;
              calls := calls m ++ [CallExecute step ctx c];
              console := console m |}).

(** [await step.rollback(step.output)], for [step = executedSteps[i]] *)
Definition await_rollback (i : nat) (step : ExecutedStep.t)
    (rollback : RollbackFunction) : M unit :=
  λ m, let '(c, w) := rollback (ExecutedStep.output step) (world m) in
       (c, {| world := w;
              calls := calls m ++ [CallRollback i step c];
              console := console m |}).

(** [console.error(line, error)]: the line is appended to the console. *)
Definition console_error (line : string) (error : value) : M unit :=
  λ m, (Normal tt, {| world := world m;
                      calls := calls m;
                      console := console m ++ [(line, error)] |}).

(** An operation of the host, run in the world of the machine. *)
Definition hosted {A} (op : World → Completion A * World) : M A :=
  λ m, let '(c, w) := op (world m) in
       (c, {| world := w; calls := calls m; console := console m |}).
End Machine.

Notation "x <- c ;; k" := (bind c (λ x, k))
  (at level 100, c at next level, right associativity).
Notation "c ;;; k" := (bind c (λ _, k))
  (at level 100, right associativity).

(** ** SagaBuilder *)

Module SagaBuilder.
Section Def.
Context `{Host}.

(** The state of a [SagaBuilder] object: its private [steps] array. *)
Record t := { steps : list StepDefinition.t }.

(** [new SagaBuilder()] *)
Definition new : t := {| steps := [] |}.

(** [step(name, input, execute, rollback?)]: the state of [this]
    after [this.steps.push({...})]. The method returns [this]; the
    reference it returns is modelled in [Store.step]. *)
Definition step (this : t) (name : string) (input : value)
    (execute : StepFunction) (rollback : option RollbackFunction) : t :=
  {| steps := steps this ++
              [ {| StepDefinition.name := name;
                   StepDefinition.input := input;
                   StepDefinition.execute := execute;
                   StepDefinition.rollback := rollback |} ] |}.

(** The error thrown by a property read on [undefined]. *)
Definition TypeError_undefined : value :=
  VError "TypeError" "Cannot read properties of undefined".

(** The body of the loop of [rollback], for [let i = n - 1]:
    [for (...; i >= 0; i--) { const step = executedSteps[i]; ... }]. *)
Fixpoint rollback_from (n : nat) (executedSteps : list ExecutedStep.t)
  : M unit :=
  match n with
  | 0 => ret tt
  | S i =>
      match executedSteps !! i with
      | None => throw TypeError_undefined
      | Some step =>
          match ExecutedStep.rollback step with
          | Some rollback =>
              try_catch (await_rollback i step rollback)
                (λ error,
                   console_error
                     ("Rollback failed for " +:+ ExecutedStep.name step
                        +:+ ":") error)
          | None => ret tt
          end ;;;
          rollback_from i executedSteps
      end
  end.

(** [private async rollback(executedSteps)] *)
Definition rollback (executedSteps : list ExecutedStep.t) : M unit :=
  rollback_from (length executedSteps) executedSteps.

(** The local variables of [run]. *)
Record Locals := {
  results : gmap string value;
  executedSteps : list ExecutedStep.t;
  lastOutput : value
}.

(** The locals as [run] initializes them. *)
Definition entry : Locals :=
  {| results := ∅; executedSteps := []; lastOutput := VUndefined |}.

(** How one iteration of the [for ... of] of [run] ends: it falls
    through to the next iteration, or it returns from [run]. *)
Inductive Flow :=
| Next (l : Locals)
| Return (r : SagaResult).

(** [error instanceof Error] *)
Definition instanceof_Error (v : value) : M bool :=
  match v with
  | VUndefined | VString _ => ret false
  | VError _ _ => ret true
  | VOpaque o => hosted (instance_of_Error o)
  end.

(** [String(v)] *)
Definition String_ (v : value) : M string :=
  match v with
  | VUndefined => ret "undefined"
  | VString s => ret s
  | VError name message =>          (* the built-in Error.prototype.toString *)
      ret (if decide (name = "") then message
           else if decide (message = "") then name
           else name +:+ ": " +:+ message)
  | VOpaque o => hosted (text_of o)
  end.

(** [error instanceof Error ? error : new Error(String(error))] *)
Definition normalize (error : value) : M value :=
  is_error <- instanceof_Error error ;;
  if is_error : bool then ret error
  else (text <- String_ error ;; ret (new_Error text)).

(** [results[name] = output]: an own property is overwritten; a name
    that is not an own property goes through the prototype chain. *)
Definition store (results : gmap string value) (name : string)
    (output : value) : M (gmap string value) :=
  match results !! name with
  | Some _ => ret (<[name := output]> results)
  | None =>
      own <- hosted (put name output) ;;
      ret (if own : bool then <[name := output]> results else results)
  end.

(** The [catch (error) { ... }] clause of the inner [try]. *)
Definition caught (step : StepDefinition.t) (l : Locals) (error : value)
  : M Flow :=
  rollback (executedSteps l) ;;;
  error' <- normalize error ;;
  ret (Return (Failed error' (StepDefinition.name step))).

(** One iteration of the loop of [run]: the inner [try]/[catch]. *)
Definition iteration (step : StepDefinition.t) (l : Locals) : M Flow :=
  try_catch
    (let ctx := {| StepContext.results := results l |} in
     output <- await_execute step ctx ;;
     results' <- store (results l) (StepDefinition.name step) output ;;
     ret (Next
       {| results := results';
          lastOutput := output;
          executedSteps :=
            executedSteps l ++
            [ {| ExecutedStep.name := StepDefinition.name step;
                 ExecutedStep.output := output;
                 ExecutedStep.rollback := StepDefinition.rollback step |} ]
       |}))
    (caught step l).

(** [for (const step of this.steps) { ... }] *)
Fixpoint for_of (steps : list StepDefinition.t) (l : Locals) : M Flow :=
  match steps with
  | [] => ret (Next l)
  | step :: rest =>
      f <- iteration step l ;;
      match f with
      | Next l' => for_of rest l'
      | Return r => ret (Return r)
      end
  end.

(** The outer [try { ... } catch (error) { return {...}; }] of
    [run], around its block. *)
Definition guarded (block : M SagaResult) : M SagaResult :=
  try_catch block
    (λ error,
       error' <- normalize error ;;
       ret (Failed error' "orchestrator")).

(** [async run()] *)
Definition run (this : t) : M SagaResult :=
  guarded
    (f <- for_of (steps this) entry ;;
     match f with
     | Next l' => ret (Success (lastOutput l') (results l'))
     | Return r => ret r
     end).
End Def.
End SagaBuilder.

(** ** Builder references

    [step] mutates the builder it is called on and returns [this]. To
    speak of what several references to builders denote, builders live in
    a heap and the fluent interface works on references. *)

Module Store.
Section Def.
Context `{Host}.

(** A program state: the builder objects allocated so far (a
    reference is an index into the heap) and the machine. *)
Record Program := {
  heap : list SagaBuilder.t;
  machine : Machine
}.

Definition P (A : Type) : Type := Program → Completion A * Program.

Definition bind {A B} (c : P A) (k : A → P B) : P B :=
  λ p, match c p with
       | (Normal a, p') => k a p'
       | (Throw e, p') => (Throw e, p')
       end.

(** [function createSaga() { return new SagaBuilder(); }] *)
Definition createSaga : P nat :=
  λ p, (Normal (length (heap p)),
        {| heap := heap p ++ [SagaBuilder.new]; machine := machine p |}).

(** [this.steps.push({...}); return this;]. A reference obtained from
    [createSaga] or [step] always denotes an allocated builder; on any
    other index the call is a method call on [undefined]. *)
Definition step (this : nat) (name : string) (input : value)
    (execute : StepFunction) (rollback : option RollbackFunction)
  : P nat :=
  λ p, match heap p !! this with
       | Some b =>
           (Normal this,
            {| heap := <[this :=
                  SagaBuilder.step b name input execute rollback]> (heap p);
               machine := machine p |})
       | None => (Throw SagaBuilder.TypeError_undefined, p)
       end.

(** [this.run()] *)
Definition run (this : nat) : P SagaResult :=
  λ p, match heap p !! this with
       | Some b =>
           let '(c, m) := SagaBuilder.run b (machine p) in
           (c, {| heap := heap p; machine := m |})
       | None => (Throw SagaBuilder.TypeError_undefined, p)
       end.

(** The fluent chain [this.step(...).step(...)...], one call per
    definition of [defs], each on the reference the call before it
    returned. *)
Fixpoint chain (this : nat) (defs : list StepDefinition.t) : P nat :=
  match defs with
  | [] => λ p, (Normal this, p)
  | d :: rest =>
      bind (step this (StepDefinition.name d) (StepDefinition.input d)
              (StepDefinition.execute d) (StepDefinition.rollback d))
           (λ next, chain next rest)
  end.

(** The step sequence a run through [this] executes. *)
Definition steps_of (this : nat) (p : Program)
  : option (list StepDefinition.t) :=
  SagaBuilder.steps <$> heap p !! this.
End Def.
End Store.

(** ** Views of the call log *)

Section Log.
Context `{Host}.

(** The [execute] invocations of a log, oldest first. *)
Definition executes (log : list Call)
  : list (StepDefinition.t * StepContext.t * Completion value) :=
  omap (λ c, match c with
             | CallExecute step ctx r => Some (step, ctx, r)
             | CallRollback _ _ _ => None
             end) log.

(** The [rollback] invocations of a log: the index and the record. *)
Definition rollbacks (log : list Call) : list (nat * ExecutedStep.t) :=
  omap (λ c, match c with
             | CallRollback i step _ => Some (i, step)
             | CallExecute _ _ _ => None
             end) log.

(** The outputs the [execute] invocations of a log returned. *)
Definition outputs (log : list Call) : list value :=
  omap (λ c, match c with
             | CallExecute _ _ (Normal output) => Some output
             | _ => None
             end) log.

(** The rollback failures of a log, as [rollback] words them for
    [console.error]. *)
Definition failures (log : list Call) : list (string * value) :=
  omap (λ c, match c with
             | CallRollback _ step (Throw error) =>
                 Some ("Rollback failed for " +:+ ExecutedStep.name step
                         +:+ ":", error)
             | _ => None
             end) log.

(** What a computation added to the log, between machine [m] and the
    machine [m'] it ended in. *)
Definition log_since (m m' : Machine) : list Call :=
  drop (length (calls m)) (calls m').

(** The Executed Step Record that [run] creates when [step.execute]
    returns [output]. *)
Definition record (step : StepDefinition.t) (output : value)
  : ExecutedStep.t :=
  {| ExecutedStep.name := StepDefinition.name step;
     ExecutedStep.output := output;
     ExecutedStep.rollback := StepDefinition.rollback step |}.

(** The records with a rollback operation, each with its index, from
    the last added to the first added. *)
Definition to_compensate (executedSteps : list ExecutedStep.t)
  : list (nat * ExecutedStep.t) :=
  reverse (filter (λ ir, is_Some (ExecutedStep.rollback ir.2))
             (imap (λ i step, (i, step)) executedSteps)).

(** The results object after [results[name] = output] for each pair
    of [named], in turn. *)
Definition assign (results : gmap string value)
    (named : list (string * value)) : gmap string value :=
  foldl (λ r no, <[no.1 := no.2]> r) results named.

(** Steps paired by position with outputs, as name and output. *)
Definition named (steps : list StepDefinition.t) (outs : list value)
  : list (string * value) :=
  zip (StepDefinition.name <$> steps) outs.

(** The locals of [run] after the steps [steps] returned [outs]. *)
Definition advance (l : SagaBuilder.Locals) (steps : list StepDefinition.t)
    (outs : list value) : SagaBuilder.Locals :=
  {| SagaBuilder.results := assign (SagaBuilder.results l) (named steps outs);
     SagaBuilder.executedSteps :=
       SagaBuilder.executedSteps l ++ zip_with record steps outs;
     SagaBuilder.lastOutput :=
       default (SagaBuilder.lastOutput l) (last outs) |}.

(** The [execute] invocations of a pass in which [steps] returned
    [outs], started on a results object [r]: each step is handed the
    results as assigned by the steps before it. *)
Definition forward_trace (r : gmap string value)
    (steps : list StepDefinition.t) (outs : list value)
  : list (StepDefinition.t * StepContext.t * Completion value) :=
  imap (λ i so,
          (so.1,
           {| StepContext.results := assign r (take i (named steps outs)) |},
           Normal so.2))
       (zip steps outs).

(** Written from the specification (4.3): visit the records from the
    last added to the first added; skip a record without a rollback
    operation; otherwise invoke its rollback operation on its output, and
    go on whether it returned or threw. [records] are newest first; the
    result is the world the pass leaves. *)
Fixpoint compensation (records : list ExecutedStep.t) (w : World) : World :=
  match records with
  | [] => w
  | step :: older =>
      match ExecutedStep.rollback step with
      | Some rollback =>
          compensation older (rollback (ExecutedStep.output step) w).2
      | None => compensation older w
      end
  end.

(** A log entry that is what it says: the completion recorded is the one
    the operation yields, in some world, on the arguments recorded. *)
Definition genuine (c : Call) : Prop :=
  match c with
  | CallExecute step ctx completion =>
      ∃ w, (StepDefinition.execute step (StepDefinition.input step) ctx w).1
           = completion
  | CallRollback i step completion =>
      ∃ rollback w,
        ExecutedStep.rollback step = Some rollback ∧
        (rollback (ExecutedStep.output step) w).1 = completion
  end.

(** A name under which assignment to a results object creates an own
    property and does nothing else: every name, on a plain object, but
    [__proto__] (and but the names under which the prototype chain has
    been given a setter or a read-only property). *)
Definition ordinary (name : string) : Prop :=
  ∀ v w, put name v w = (Normal true, w).

(** A computation that completes normally wherever it is started. *)
Definition completes {A} (c : M A) : Prop :=
  ∀ m, ∃ a m', c m = (Normal a, m').
End Log.

(** ** The sagas of the test suite *)

Module Tests.
(** The objects of the tests, and three that plain JavaScript offers:
    - [Id n]: the plain object [{ id: n }];
    - [Bare]: [Object.create(null)], which has no [toString];
    - [Selfish]: [const bad = { toString() { throw bad; } }]. *)
Inductive TestObject :=
| Id (n : nat)
| Bare
| Selfish.

(** The world is the array the test's operations push to
    ([rollbackCalls], [actions]). *)
#[export] Instance runtime : Runtime := {|
  World := list string;
  Opaque := TestObject
|}.

(** The error of [String(Object.create(null))]. *)
Definition TypeError_primitive : value :=
  VError "TypeError" "Cannot convert object to primitive value".

(** None of the three objects is an Error; a plain object has the text
    of [Object.prototype.toString]; on the results object, a plain one,
    every name creates an own property but [__proto__], which replaces
    the prototype. *)
#[export] Instance host : Host := {|
  instance_of_Error := λ _ w, (Normal false, w);
  text_of := λ o w,
    match o with
    | Id _ => (Normal "[object Object]", w)
    | Bare => (Throw TypeError_primitive, w)
    | Selfish => (Throw (VOpaque Selfish), w)
    end;
  put := λ name _ w, (Normal (bool_decide (name ≠ "__proto__")), w)
|}.

Definition start : Machine := {| world := []; calls := []; console := [] |}.

(** The object [{ id: n }]. *)
Definition with_id (n : nat) : value := VOpaque (Id n).

(** [async () => { return { id: n }; }] *)
Definition returns_id (n : nat) : StepFunction :=
  λ _ _ w, (Normal (with_id n), w).

(** [async () => { throw v; }] *)
Definition throws (v : value) : StepFunction :=
  λ _ _ w, (Throw v, w).

(** [async (output) => { rollbackCalls.push(`${line}-${output.id}`); }] *)
Definition pushes (line : string) : RollbackFunction :=
  λ output w,
    match output with
    | VOpaque (Id id) => (Normal tt, w ++ [line +:+ "-" +:+ pretty id])
    | VUndefined => (Throw SagaBuilder.TypeError_undefined, w)
    | _ => (Normal tt, w ++ [line +:+ "-undefined"])
    end.

(** [async () => { rollbackCalls.push(line); throw v; }] *)
Definition pushes_and_throws (line : string) (v : value)
  : RollbackFunction :=
  λ _ w, (Throw v, w ++ [line]).

Definition Step (name : string) (execute : StepFunction)
    (rollback : option RollbackFunction) : StepDefinition.t :=
  {| StepDefinition.name := name;
     StepDefinition.input := VUndefined;
     StepDefinition.execute := execute;
     StepDefinition.rollback := rollback |}.

Definition step1 := Step "step1" (returns_id 1) (Some (pushes "step1-rollback")).
Definition step2 := Step "step2" (returns_id 2) (Some (pushes "step2-rollback")).
Definition step2_plain := Step "step2" (returns_id 2) None.
Definition step2_bad_rollback :=
  Step "step2" (returns_id 2)
    (Some (pushes_and_throws "step2-rollback-started"
             (VError "Error" "Rollback failed"))).
Definition step3 :=
  Step "step3" (throws (VError "Error" "Step 3 failed"))
    (Some (pushes "step3-rollback")).

(** 'should rollback all steps on failure' *)
Definition rollback_all : SagaBuilder.t :=
  {| SagaBuilder.steps := [step1; step2; step3] |}.

(** 'should continue rollback even if one rollback fails' *)
Definition rollback_fails : SagaBuilder.t :=
  {| SagaBuilder.steps := [step1; step2_bad_rollback; step3] |}.

(** 'should handle steps without rollback functions' *)
Definition without_rollback : SagaBuilder.t :=
  {| SagaBuilder.steps := [step1; step2_plain; step3] |}.

(** 'should return error with non-Error thrown values' *)
Definition string_error : SagaBuilder.t :=
  {| SagaBuilder.steps := [Step "step1" (throws (VString "String error")) None] |}.

(** The inner saga of 'should rollback nested saga using returned
    rollback function'. *)
Definition inner : SagaBuilder.t :=
  {| SagaBuilder.steps :=
       [Step "innerStep1" (returns_id 1) (Some (pushes "innerStep1-rollback"));
        Step "innerStep2" (returns_id 2) (Some (pushes "innerStep2-rollback"))] |}.

(** Two steps registered under one name, then a step that throws. *)
Definition duplicate_names : SagaBuilder.t :=
  {| SagaBuilder.steps :=
       [Step "charge" (returns_id 1) (Some (pushes "refund"));
        Step "charge" (returns_id 2) (Some (pushes "refund"));
        Step "notify" (throws (VString "down")) None] |}.

(** Two steps registered under one name, both returning, and nothing
    after them. *)
Definition duplicate_success : SagaBuilder.t :=
  {| SagaBuilder.steps :=
       [Step "charge" (returns_id 1) None;
        Step "charge" (returns_id 2) None] |}.

(** A program state with no builder allocated yet. *)
Definition fresh : Store.Program :=
  {| Store.heap := []; Store.machine := start |}.

(** [const base = createSaga().step('a', ...);
     const c1 = base.step('b', ...);] *)
Definition one_chain : Store.P (nat * nat) :=
  Store.bind Store.createSaga (λ saga,
  Store.bind (Store.step saga "a" VUndefined (returns_id 1) None) (λ base,
  Store.bind (Store.step base "b" VUndefined (returns_id 2) None) (λ c1,
  λ p, (Normal (base, c1), p)))).

(** ... followed by [const c2 = base.step('c', ...);] *)
Definition two_chains : Store.P (nat * nat * nat) :=
  Store.bind one_chain (λ '(base, c1),
  Store.bind (Store.step base "c" VUndefined (returns_id 3) None) (λ c2,
  λ p, (Normal (base, c1, c2), p))).

(** The names of the steps that a run through reference [this]
    executes, read off the log of that run. *)
Definition executed_names (this : nat) (p : Store.Program) : list string :=
  StepDefinition.name <$>
    (executes (log_since (Store.machine p)
                 (Store.machine (Store.run this p).2))).*1.*1.

(** [async (input, ctx) => ctx.results[name]]: the step returns what the
    context holds under [name]. *)
Definition returns_result (name : string) : StepFunction :=
  λ _ ctx w, (Normal (default VUndefined (StepContext.results ctx !! name)), w).

(** A step that reads the output of step1 from its context, after
    step1, and a step that throws. *)
Definition copy := Step "copy" (returns_result "step1") None.
Definition reads_context : SagaBuilder.t :=
  {| SagaBuilder.steps := [step1; copy; step3] |}.

(** A step that throws [Object.create(null)]. *)
Definition pay := Step "pay" (throws (VOpaque Bare)) None.

(** The step [pay], after step1. *)
Definition throws_bare : SagaBuilder.t :=
  {| SagaBuilder.steps := [step1; pay] |}.

(** A step that throws an object whose [toString] throws the object. *)
Definition throws_selfish : SagaBuilder.t :=
  {| SagaBuilder.steps := [Step "pay" (throws (VOpaque Selfish)) None] |}.

(** A step registered under the name "orchestrator", and a step that
    throws [Object.create(null)]. *)
Definition named_orchestrator : SagaBuilder.t :=
  {| SagaBuilder.steps := [Step "orchestrator" (returns_id 1) None; pay] |}.

(** [async () => v], for a primitive [v]. *)
Definition returns (v : value) : StepFunction :=
  λ _ _ w, (Normal v, w).

(** [async (input, ctx) =>
       Object.keys(ctx.results).includes(name) ? 'seen' : 'missing'] *)
Definition has_own (name : string) : StepFunction :=
  λ _ ctx w,
    (Normal (VString (if StepContext.results ctx !! name is Some _
                      then "seen" else "missing")), w).

(** [async (output) => { rollbackCalls.push(line + '-' + output); }],
    used on string outputs. *)
Definition notes (line : string) : RollbackFunction :=
  λ output w,
    match output with
    | VString text => (Normal tt, w ++ [line +:+ "-" +:+ text])
    | VUndefined => (Normal tt, w ++ [line +:+ "-undefined"])
    | VError name message =>
        (Normal tt, w ++ [line +:+ "-" +:+ name +:+ ": " +:+ message])
    | VOpaque o =>
        match text_of o w with
        | (Normal text, w') => (Normal tt, w' ++ [line +:+ "-" +:+ text])
        | (Throw e, w') => (Throw e, w')
        end
    end.

(** A step registered under the name [__proto__] that returns the
    string 'paid', and a second step that looks for it among the keys
    of its context. *)
Definition paid := Step "__proto__" (returns (VString "paid")) None.
Definition next := Step "next" (has_own "__proto__") None.
Definition named_proto : SagaBuilder.t :=
  {| SagaBuilder.steps := [paid; next] |}.

(** Two steps registered under the name [__proto__], then a step that
    looks for that name in its context, then a step that throws. *)
Definition duplicate_proto : SagaBuilder.t :=
  {| SagaBuilder.steps :=
       [Step "__proto__" (returns (VString "first")) (Some (notes "undo"));
        Step "__proto__" (returns (VString "second")) (Some (notes "undo"));
        Step "look" (has_own "__proto__") None;
        Step "notify" (throws (VString "down")) None] |}.

(** A rollback that throws, and then a step that throws
    [Object.create(null)]. *)
Definition bare_after_bad_rollback : SagaBuilder.t :=
  {| SagaBuilder.steps := [step1; step2_bad_rollback; pay] |}.
End Tests.

(** * Properties *)

(** ** The call log and its views *)

Section LogFacts.
Context `{Runtime}.

Lemma executes_app (l1 l2 : list Call) :
  executes (l1 ++ l2) = executes l1 ++ executes l2.
Proof. apply omap_app. Qed.

Lemma rollbacks_app (l1 l2 : list Call) :
  rollbacks (l1 ++ l2) = rollbacks l1 ++ rollbacks l2.
Proof. apply omap_app. Qed.


Lemma failures_app (l1 l2 : list Call) :
  failures (l1 ++ l2) = failures l1 ++ failures l2.
Proof. apply omap_app. Qed.

Lemma log_since_app (m m' : Machine) (new : list Call) :
  calls m' = calls m ++ new → log_since m m' = new.
Proof. intros E. unfold log_since. rewrite E. apply drop_app_length. Qed.

Lemma log_since_refl (m : Machine) : log_since m m = [].
Proof. apply log_since_app. by rewrite app_nil_r. Qed.

Lemma to_compensate_nil : to_compensate [] = [].
Proof. reflexivity. Qed.

(** The newest record is the first to be compensated, if it has a
    rollback operation at all. *)
Lemma to_compensate_snoc (es : list ExecutedStep.t) (step : ExecutedStep.t) :
  to_compensate (es ++ [step]) =
  (if ExecutedStep.rollback step is Some _ then [(length es, step)] else [])
    ++ to_compensate es.
Proof.
  unfold to_compensate.
  rewrite imap_app, filter_app, reverse_app. f_equal.
  cbn [imap]. rewrite filter_cons, filter_nil. cbn.
  rewrite Nat.add_0_r.
  destruct (ExecutedStep.rollback step); case_decide as Hd; cbn in Hd;
    try reflexivity.
  - exfalso. apply Hd. eauto.
  - by destruct Hd.
Qed.

Lemma elem_of_to_compensate (es : list ExecutedStep.t) i step :
  (i, step) ∈ to_compensate es ↔
  es !! i = Some step ∧ is_Some (ExecutedStep.rollback step).
Proof.
  unfold to_compensate.
  rewrite elem_of_reverse, list_elem_of_filter, elem_of_lookup_imap. cbn.
  split.
  - intros [Hs (j & y & [= -> ->] & Hj)]. done.
  - intros [Hl Hs]. split; [done|]. eauto.
Qed.

Lemma to_compensate_indices_NoDup (es : list ExecutedStep.t) :
  NoDup (to_compensate es).*1.
Proof.
  unfold to_compensate. rewrite fmap_reverse, reverse_Permutation.
  assert (Hall : NoDup (imap (λ i step, (i, step)) es).*1).
  { replace ((imap (λ i step, (i, step)) es).*1) with (seq 0 (length es)).
    - apply NoDup_seq.
    - apply list_eq. intros i.
      rewrite list_lookup_fmap, list_lookup_imap.
      destruct (es !! i) as [x|] eqn:E; cbn.
      + apply lookup_seq. split; [done|]. by eapply lookup_lt_Some.
      + apply lookup_seq_ge. by apply lookup_ge_None. }
  revert Hall. generalize (imap (λ i step, (i, step)) es).
  intros l. induction l as [|x l IH]; [done|].
  rewrite filter_cons. cbn. intros [Hx Hl]%NoDup_cons.
  case_decide; [|by auto].
  cbn. apply NoDup_cons. split; [|by auto].
  intros (y & Hy1 & Hy2)%list_elem_of_fmap.
  apply list_elem_of_filter in Hy2 as [_ Hy2].
  apply Hx. apply list_elem_of_fmap. eauto.
Qed.
End LogFacts.

(** ** The Compensator *)

Section Compensator.
Context `{Runtime}.
Implicit Types (es : list ExecutedStep.t) (m : Machine).

(** The loop only reads the records below its index. *)
Lemma rollback_from_app n es extra :
  n ≤ length es →
  SagaBuilder.rollback_from n (es ++ extra) = SagaBuilder.rollback_from n es.
Proof.
  induction n as [|i IH]; intros Hn; [done|].
  cbn. rewrite lookup_app_l by lia.
  destruct (es !! i); [|done]. rewrite IH by lia. done.
Qed.

(** One pass from index [n - 1] down to 0 completes normally, invokes
    exactly the rollback operations of the records below [n], newest
    first, invokes no [execute], and writes one console line per
    rollback that threw. *)
Lemma rollback_from_spec n es m :
  n ≤ length es →
  ∃ m' new,
    SagaBuilder.rollback_from n es m = (Normal tt, m') ∧
    calls m' = calls m ++ new ∧
    executes new = [] ∧
    rollbacks new = to_compensate (take n es) ∧
    console m' = console m ++ failures new ∧
    Forall genuine new ∧
    world m' = compensation (reverse (take n es)) (world m).
Proof.
  revert m. induction n as [|i IH]; intros m Hn.
  - exists m, []. cbn. rewrite !app_nil_r. done.
  - destruct (lookup_lt_is_Some_2 es i) as [step Hstep]; [lia|].
    rewrite (take_S_r _ _ _ Hstep), to_compensate_snoc, reverse_snoc.
    rewrite length_take_le by lia.
    cbn. rewrite Hstep. unfold bind at 1.
    destruct (ExecutedStep.rollback step) as [rb|] eqn:Hrb.
    + unfold try_catch, await_rollback.
      destruct (rb (ExecutedStep.output step) (world m)) as [[[]|e] w] eqn:Hcall.
      * edestruct (IH {| world := w;
                         calls := calls m ++ [CallRollback i step (Normal ())];
                         console := console m |})
          as (m' & new & Hrun & Hcalls & Hex & Hrbs & Hcon & Hgen & Hw); [lia|].
        exists m', (CallRollback i step (Normal ()) :: new).
        cbn in Hcalls, Hcon, Hw. rewrite <- app_assoc in Hcalls.
        split_and!; [done|done|done| |done| |].
        { change (rollbacks (CallRollback i step (Normal ()) :: new))
            with ((i, step) :: rollbacks new).
          by rewrite Hrbs. }
        { apply Forall_cons. split; [|done].
          exists rb, (world m). by rewrite Hcall. }
        { exact Hw. }
      * unfold console_error. cbn.
        edestruct (IH {| world := w;
                         calls := calls m ++ [CallRollback i step (Throw e)];
                         console := console m ++
                           [("Rollback failed for " +:+ ExecutedStep.name step
                               +:+ ":", e)] |})
          as (m' & new & Hrun & Hcalls & Hex & Hrbs & Hcon & Hgen & Hw); [lia|].
        exists m', (CallRollback i step (Throw e) :: new).
        cbn in Hcalls, Hcon, Hw. rewrite <- app_assoc in Hcalls, Hcon.
        split_and!; [done|done|done| |done| |].
        { change (rollbacks (CallRollback i step (Throw e) :: new))
            with ((i, step) :: rollbacks new).
          by rewrite Hrbs. }
        { apply Forall_cons. split; [|done].
          exists rb, (world m). by rewrite Hcall. }
        { exact Hw. }
    + unfold ret at 1. cbn.
      destruct (IH m) as (m' & new & Hrun & Hcalls & Hex & Hrbs & Hcon); [lia|].
      exists m', new. done.
Qed.

Lemma rollback_spec es m :
  ∃ m' new,
    SagaBuilder.rollback es m = (Normal tt, m') ∧
    calls m' = calls m ++ new ∧
    executes new = [] ∧
    rollbacks new = to_compensate es ∧
    console m' = console m ++ failures new ∧
    Forall genuine new ∧
    world m' = compensation (reverse es) (world m).
Proof.
  destruct (rollback_from_spec (length es) es m) as (m' & new & ?); [done|].
  rewrite firstn_all in *. by exists m', new.
Qed.

(** A newest record without a rollback operation is passed over: the
    pass is the pass over the older records. *)
Lemma rollback_skip es step :
  ExecutedStep.rollback step = None →
  SagaBuilder.rollback (es ++ [step]) = SagaBuilder.rollback es.
Proof.
  intros Hnone. unfold SagaBuilder.rollback.
  rewrite length_app, Nat.add_1_r. cbn.
  rewrite lookup_app_r, Nat.sub_diag by done. cbn. rewrite Hnone.
  rewrite rollback_from_app by done.
  unfold bind, ret. done.
Qed.
End Compensator.

(** ** The Executor *)

Section Executor.
Context `{Host}.
Implicit Types (l : SagaBuilder.Locals) (m : Machine)
  (steps before after : list StepDefinition.t) (outs : list value).

Lemma forward_trace_cons r s steps o outs :
  forward_trace r (s :: steps) (o :: outs) =
  (s, {| StepContext.results := r |}, Normal o)
    :: forward_trace (<[StepDefinition.name s := o]> r) steps outs.
Proof.
  unfold forward_trace. cbn [zip zip_with]. rewrite imap_cons. done.
Qed.

Lemma forward_trace_steps r steps outs :
  length outs = length steps →
  (forward_trace r steps outs).*1.*1 = steps.
Proof.
  revert r outs. induction steps as [|s steps IH]; intros r [|o outs] [=]; [done|].
  rewrite forward_trace_cons. cbn. by rewrite IH.
Qed.

Lemma forward_trace_completions r steps outs :
  length outs = length steps →
  (forward_trace r steps outs).*2 = Normal <$> outs.
Proof.
  revert r outs. induction steps as [|s steps IH]; intros r [|o outs] [=]; [done|].
  rewrite forward_trace_cons. cbn. by rewrite IH.
Qed.

Lemma advance_cons l s steps o outs :
  advance l (s :: steps) (o :: outs) =
  advance {| SagaBuilder.results :=
               <[StepDefinition.name s := o]> (SagaBuilder.results l);
             SagaBuilder.executedSteps :=
               SagaBuilder.executedSteps l ++ [record s o];
             SagaBuilder.lastOutput := o |} steps outs.
Proof.
  unfold advance. cbn. rewrite <- app_assoc. cbn. f_equal.
  rewrite last_cons. by destruct (last outs).
Qed.

Lemma advance_nil l : advance l [] [] = l.
Proof. destruct l. unfold advance. cbn. by rewrite app_nil_r. Qed.

(** The operations of the host leave the log and the console alone. *)
Lemma hosted_frame {A} (op : World → Completion A * World) m :
  calls (hosted op m).2 = calls m ∧ console (hosted op m).2 = console m.
Proof. unfold hosted. by destruct (op (world m)). Qed.

Lemma normalize_frame e m :
  calls (SagaBuilder.normalize e m).2 = calls m ∧
  console (SagaBuilder.normalize e m).2 = console m.
Proof.
  unfold SagaBuilder.normalize, bind.
  destruct e as [| | |o]; cbn; try done.
  unfold hosted.
  destruct (instance_of_Error o (world m)) as [[[]|] w]; cbn; try done.
  by destruct (text_of o w) as [[] w'].
Qed.

Lemma store_frame r n o m :
  calls (SagaBuilder.store r n o m).2 = calls m ∧
  console (SagaBuilder.store r n o m).2 = console m.
Proof.
  unfold SagaBuilder.store, bind, hosted.
  destruct (r !! n); [done|].
  by destruct (put n o (world m)) as [[] w].
Qed.

(** Under an ordinary name the output becomes an own property, and
    nothing else happens. *)
Lemma store_ordinary (r : gmap string value) n o m :
  ordinary n →
  SagaBuilder.store r n o m = (Normal (<[n := o]> r), m).
Proof.
  intros Hn. unfold SagaBuilder.store, bind, hosted.
  destruct (r !! n); [done|]. rewrite Hn. by destruct m.
Qed.

(** The catch clause: the pass over the records so far, then the
    normalization of the error, which decides what the iteration ends
    with. *)
Lemma caught_spec step l e m :
  ∃ m2 comps,
    SagaBuilder.rollback (SagaBuilder.executedSteps l) m = (Normal (), m2) ∧
    calls m2 = calls m ++ comps ∧
    executes comps = [] ∧
    rollbacks comps = to_compensate (SagaBuilder.executedSteps l) ∧
    console m2 = console m ++ failures comps ∧
    Forall genuine comps ∧
    world m2 =
      compensation (reverse (SagaBuilder.executedSteps l)) (world m) ∧
    SagaBuilder.caught step l e m =
      match SagaBuilder.normalize e m2 with
      | (Normal error, m3) =>
          (Normal (SagaBuilder.Return
                     (Failed error (StepDefinition.name step))), m3)
      | (Throw e', m3) => (Throw e', m3)
      end.
Proof.
  destruct (rollback_spec (SagaBuilder.executedSteps l) m)
    as (m2 & comps & Hrun & Hc & He & Hr & Hk & Hg & Hw).
  exists m2, comps. split_and!; try done.
  unfold SagaBuilder.caught, bind. rewrite Hrun.
  by destruct (SagaBuilder.normalize e m2) as [[] ?].
Qed.

(** One iteration, by what [execute] and the assignment do. *)
Lemma iteration_eq step l m :
  SagaBuilder.iteration step l m =
  let ctx := {| StepContext.results := SagaBuilder.results l |} in
  match StepDefinition.execute step (StepDefinition.input step) ctx (world m) with
  | (Normal o, w) =>
      match SagaBuilder.store (SagaBuilder.results l)
              (StepDefinition.name step) o
              {| world := w;
                 calls := calls m ++ [CallExecute step ctx (Normal o)];
                 console := console m |} with
      | (Normal r', m') =>
          (Normal (SagaBuilder.Next
             {| SagaBuilder.results := r';
                SagaBuilder.lastOutput := o;
                SagaBuilder.executedSteps :=
                  SagaBuilder.executedSteps l ++ [record step o] |}), m')
      | (Throw e, m') => SagaBuilder.caught step l e m'
      end
  | (Throw e, w) =>
      SagaBuilder.caught step l e
        {| world := w;
           calls := calls m ++ [CallExecute step ctx (Throw e)];
           console := console m |}
  end.
Proof.
  unfold SagaBuilder.iteration, try_catch, bind at 1, await_execute. cbn zeta.
  destruct (StepDefinition.execute _ _ _ _) as [[o|e] w]; [|done].
  unfold bind.
  by destruct (SagaBuilder.store _ _ _ _) as [[] ?].
Qed.

(** What any iteration adds to the log: the invocation of [execute],
    then, unless it falls through, the compensation pass. *)
Lemma iteration_log step l m c m' :
  SagaBuilder.iteration step l m = (c, m') →
  ∃ comp comps,
    calls m' = calls m ++
      CallExecute step {| StepContext.results := SagaBuilder.results l |} comp
        :: comps ∧
    executes comps = [] ∧
    Forall genuine
      (CallExecute step {| StepContext.results := SagaBuilder.results l |} comp
         :: comps) ∧
    match c with
    | Normal (SagaBuilder.Next l') =>
        comps = [] ∧ console m' = console m ∧
        ∃ o, comp = Normal o ∧
          SagaBuilder.executedSteps l' =
            SagaBuilder.executedSteps l ++ [record step o] ∧
          SagaBuilder.lastOutput l' = o
    | Normal (SagaBuilder.Return r) =>
        (∃ error, r = Failed error (StepDefinition.name step)) ∧
        rollbacks comps = to_compensate (SagaBuilder.executedSteps l) ∧
        console m' = console m ++ failures comps
    | Throw _ =>
        rollbacks comps = to_compensate (SagaBuilder.executedSteps l) ∧
        console m' = console m ++ failures comps
    end.
Proof.
  rewrite iteration_eq. cbn zeta.
  destruct (StepDefinition.execute _ _ _ _) as [[o|e] w] eqn:Hex.
  - match goal with |- context [SagaBuilder.store ?r ?n ?v ?m0] =>
      pose proof (store_frame r n v m0) as [Hsc Hsk];
      destruct (SagaBuilder.store r n v m0) as [[r'|e] ms] eqn:Hst
    end; cbn in Hsc, Hsk.
    + intros [= <- <-]. eexists (Normal o), [].
      split; [done|]. split; [done|]. split.
      * apply Forall_cons. split; [|done]. exists (world m). by rewrite Hex.
      * split_and!; [done|done|]. by exists o.
    + destruct (caught_spec step l e ms)
        as (m2 & comps & _ & Hc & He & Hr & Hk & Hg & _ & ->).
      pose proof (normalize_frame e m2) as [Hnc Hnk].
      destruct (SagaBuilder.normalize e m2) as [[err|e'] m3];
        cbn in Hnc, Hnk; intros [= <- <-];
        exists (Normal o), comps;
        rewrite Hnc, Hnk, Hc, Hk, Hsc, Hsk, <- app_assoc;
        (split; [done|]; split; [done|]; split;
           [apply Forall_cons; split; [|done]; exists (world m);
            by rewrite Hex|]);
        eauto.
  - match goal with |- context [SagaBuilder.caught step l e ?m0] =>
      destruct (caught_spec step l e m0)
        as (m2 & comps & _ & Hc & He & Hr & Hk & Hg & _ & ->)
    end.
    pose proof (normalize_frame e m2) as [Hnc Hnk].
    destruct (SagaBuilder.normalize e m2) as [[err|e'] m3];
      cbn in Hnc, Hnk, Hc, Hk; intros [= <- <-];
      exists (Throw e), comps;
      rewrite Hnc, Hnk, Hc, Hk, <- app_assoc;
      (split; [done|]; split; [done|]; split;
         [apply Forall_cons; split; [|done]; exists (world m);
          by rewrite Hex|]);
      eauto.
Qed.
(** Under an ordinary name the iteration leaves the loop only because
    [execute] threw. *)
Lemma iteration_stop step l m c m' :
  ordinary (StepDefinition.name step) →
  SagaBuilder.iteration step l m = (c, m') →
  (∀ l', c ≠ Normal (SagaBuilder.Next l')) →
  ∃ e w comps,
    StepDefinition.execute step (StepDefinition.input step)
      {| StepContext.results := SagaBuilder.results l |} (world m)
      = (Throw e, w) ∧
    calls m' = calls m ++
      CallExecute step {| StepContext.results := SagaBuilder.results l |}
        (Throw e) :: comps ∧
    executes comps = [] ∧
    Forall genuine
      (CallExecute step {| StepContext.results := SagaBuilder.results l |}
         (Throw e) :: comps).
Proof.
  intros Hord Hit Hno. rewrite iteration_eq in Hit. cbn zeta in Hit.
  destruct (StepDefinition.execute _ _ _ _) as [[o|e] w] eqn:Hex.
  - rewrite (store_ordinary _ _ _ _ Hord) in Hit.
    injection Hit as <- _. by edestruct Hno.
  - match type of Hit with context [SagaBuilder.caught step l e ?m0] =>
      destruct (caught_spec step l e m0)
        as (m2 & comps & _ & Hc & He & _ & _ & Hg & _ & Hca)
    end.
    rewrite Hca in Hit.
    pose proof (normalize_frame e m2) as [Hnc _].
    exists e, w, comps. split; [done|].
    assert (calls m' = calls m2) as ->.
    { destruct (SagaBuilder.normalize e m2) as [[err|e'] m3];
        cbn in Hnc; by injection Hit as _ <-. }
    rewrite Hc. cbn. rewrite <- app_assoc.
    split; [done|]. split; [done|].
    apply Forall_cons. split; [|done]. exists (world m). by rewrite Hex.
Qed.

Lemma for_of_cons step steps l m :
  SagaBuilder.for_of (step :: steps) l m =
  match SagaBuilder.iteration step l m with
  | (Normal (SagaBuilder.Next l'), m') => SagaBuilder.for_of steps l' m'
  | (Normal (SagaBuilder.Return r), m') => (Normal (SagaBuilder.Return r), m')
  | (Throw e, m') => (Throw e, m')
  end.
Proof.
  cbn. unfold bind at 1.
  destruct (SagaBuilder.iteration step l m) as [[[l'|r]|e] m']; done.
Qed.

Lemma for_of_app before after l m :
  SagaBuilder.for_of (before ++ after) l m =
  match SagaBuilder.for_of before l m with
  | (Normal (SagaBuilder.Next l'), m') => SagaBuilder.for_of after l' m'
  | other => other
  end.
Proof.
  revert l m. induction before as [|s before IH]; intros l m; [done|].
  rewrite <- app_comm_cons, !for_of_cons.
  destruct (SagaBuilder.iteration s l m) as [[[l'|r]|e] m']; [|done..].
  apply IH.
Qed.

(** The loop invariant: when the loop falls through, every step was
    executed once, in order, each returned, nothing else was invoked, and
    there is a record for each step, holding what it returned. *)
Lemma for_of_Next steps l m l' m' :
  SagaBuilder.for_of steps l m = (Normal (SagaBuilder.Next l'), m') →
  ∃ new,
    calls m' = calls m ++ new ∧
    console m' = console m ∧
    rollbacks new = [] ∧
    length (outputs new) = length steps ∧
    (executes new).*1.*1 = steps ∧
    (executes new).*2 = Normal <$> outputs new ∧
    Forall genuine new ∧
    length new = length steps ∧
    SagaBuilder.executedSteps l' =
      SagaBuilder.executedSteps l ++ zip_with record steps (outputs new) ∧
    SagaBuilder.lastOutput l' =
      default (SagaBuilder.lastOutput l) (last (outputs new)).
Proof.
  revert l m. induction steps as [|s steps IH]; intros l m.
  - cbn. unfold ret. intros [= <- <-]. exists [].
    rewrite !app_nil_r. done.
  - rewrite for_of_cons.
    destruct (SagaBuilder.iteration s l m) as [[[l1|r]|e] m1] eqn:Hit; [|done..].
    destruct (iteration_log _ _ _ _ _ Hit)
      as (comp & comps & Hc & _ & Hg & -> & Hk & o & -> & Hes & Hlo).
    intros (new & Hc' & Hk' & Hr & Hlen & Hst & Hco & Hg' & Hln & Hes' & Hlo')%IH.
    exists (CallExecute s {| StepContext.results := SagaBuilder.results l |}
              (Normal o) :: new).
    change (outputs (?c :: new)) with (o :: outputs new).
    change (executes (?c :: new)) with
      ((s, {| StepContext.results := SagaBuilder.results l |}, Normal o)
         :: executes new).
    change (rollbacks (?c :: new)) with (rollbacks new).
    split_and!.
    + by rewrite Hc', Hc, <- app_assoc.
    + by rewrite Hk'.
    + done.
    + cbn. by rewrite Hlen.
    + cbn. by rewrite Hst.
    + cbn. by rewrite Hco.
    + apply (Forall_app _ [_] new). by split.
    + cbn. by rewrite Hln.
    + by rewrite Hes', Hes, <- app_assoc.
    + rewrite Hlo', Hlo, last_cons. by destruct (last (outputs new)).
Qed.

(** Under ordinary names the results are those assigned by the steps,
    in turn, and each step was handed the results assigned before it. *)
Lemma for_of_Next_ordinary steps l m l' m' :
  Forall (λ s, ordinary (StepDefinition.name s)) steps →
  SagaBuilder.for_of steps l m = (Normal (SagaBuilder.Next l'), m') →
  executes (log_since m m') =
    forward_trace (SagaBuilder.results l) steps (outputs (log_since m m')) ∧
  l' = advance l steps (outputs (log_since m m')).
Proof.
  intros Hord. revert l m.
  induction Hord as [|s steps Hs Hord IH]; intros l m.
  - cbn. unfold ret. intros [= <- <-].
    by rewrite log_since_refl, advance_nil.
  - rewrite for_of_cons, iteration_eq. cbn zeta.
    destruct (StepDefinition.execute _ _ _ _) as [[o|e] w] eqn:Hex.
    + rewrite (store_ordinary _ _ _ _ Hs). intros Hrest.
      destruct (for_of_Next _ _ _ _ _ Hrest) as (new & Hc & _).
      cbn in Hc. rewrite <- app_assoc in Hc.
      apply IH in Hrest as [He ->].
      match type of He with context [log_since ?m0 m'] =>
        assert (Hnew : log_since m0 m' = new)
          by (apply log_since_app; cbn; by rewrite <- app_assoc)
      end.
      rewrite Hnew in *. rewrite (log_since_app _ _ _ Hc). cbn [app].
      change (outputs (?c :: new)) with (o :: outputs new).
      change (executes (?c :: new)) with
        ((s, {| StepContext.results := SagaBuilder.results l |}, Normal o)
           :: executes new).
      rewrite forward_trace_cons, advance_cons, He. done.
    + match goal with |- context [SagaBuilder.caught s l e ?m0] =>
        destruct (caught_spec s l e m0) as (m2 & ? & _ & _ & _ & _ & _ & _ & _ & ->)
      end.
      by destruct (SagaBuilder.normalize e m2) as [[] ?].
Qed.

(** When the loop does not fall through, it stopped in the iteration of
    some step, after the steps before it fell through. *)
Lemma for_of_stop steps l m c m' :
  SagaBuilder.for_of steps l m = (c, m') →
  (∀ l', c ≠ Normal (SagaBuilder.Next l')) →
  ∃ before s after l1 m1,
    steps = before ++ s :: after ∧
    SagaBuilder.for_of before l m = (Normal (SagaBuilder.Next l1), m1) ∧
    SagaBuilder.iteration s l1 m1 = (c, m').
Proof.
  revert l m. induction steps as [|s steps IH]; intros l m.
  - cbn. unfold ret. intros [= <- <-] Hc. by destruct (Hc l).
  - rewrite for_of_cons.
    destruct (SagaBuilder.iteration s l m) as [[[l1|r]|e] m1] eqn:Hit.
    + intros Hrest Hc.
      destruct (IH _ _ Hrest Hc)
        as (before & s' & after & l2 & m2 & -> & Hb & Hi).
      exists (s :: before), s', after, l2, m2.
      split_and!; [done| |done]. by rewrite for_of_cons, Hit.
    + intros [= <- <-] _. exists [], s, steps, l, m. cbn. unfold ret. done.
    + intros [= <- <-] _. exists [], s, steps, l, m. cbn. unfold ret. done.
Qed.
End Executor.

(** ** The results object *)

Section Results.
Context `{Runtime}.
Implicit Types (r : gmap string value) (nos : list (string * value)).

Lemma assign_snoc r nos n v :
  assign r (nos ++ [(n, v)]) = <[n := v]> (assign r nos).
Proof. unfold assign. by rewrite foldl_snoc. Qed.

(** Only assigned names are added. *)
Lemma assign_lookup_other r nos n :
  n ∉ nos.*1 → assign r nos !! n = r !! n.
Proof.
  induction nos as [|[n' v'] nos IH] using rev_ind; [done|].
  rewrite fmap_app, assign_snoc. cbn.
  intros Hn. rewrite lookup_insert_ne.
  - apply IH. intros Hin. apply Hn, elem_of_app. by left.
  - intros ->. apply Hn, elem_of_app. right. by left.
Qed.

(** Last write wins: a name holds the value of its last assignment. *)
Lemma assign_lookup_last r nos j n v :
  nos !! j = Some (n, v) →
  (∀ j' v', j < j' → nos !! j' ≠ Some (n, v')) →
  assign r nos !! n = Some v.
Proof.
  revert j. induction nos as [|[n' v'] nos IH] using rev_ind; intros j; [done|].
  rewrite assign_snoc. intros Hj Hlast.
  destruct (decide (j = length nos)) as [->|Hne].
  - rewrite list_lookup_middle in Hj by done. injection Hj as -> ->.
    apply lookup_insert_eq.
  - assert (j < length nos).
    { apply lookup_lt_Some in Hj. rewrite length_app in Hj. cbn in Hj. lia. }
    rewrite lookup_app_l in Hj by done.
    rewrite lookup_insert_ne.
    + apply (IH j); [done|]. intros j' v'' Hlt Hj'.
      apply (Hlast j' v''); [done|].
      rewrite lookup_app_l; [done|]. by eapply lookup_lt_Some.
    + intros ->. apply (Hlast (length nos) v'); [done|].
      by rewrite list_lookup_middle.
Qed.

(** With distinct names every assignment is kept. *)
Lemma assign_lookup_NoDup r nos j n v :
  NoDup nos.*1 → nos !! j = Some (n, v) → assign r nos !! n = Some v.
Proof.
  intros Hnd Hj. apply (assign_lookup_last _ _ j); [done|].
  intros j' v' Hlt Hj'.
  assert (j = j'); [|lia].
  apply (NoDup_lookup _ _ _ n Hnd); rewrite list_lookup_fmap.
  - by rewrite Hj.
  - by rewrite Hj'.
Qed.

Lemma assign_dom r nos :
  dom (assign r nos) = list_to_set nos.*1 ∪ dom r.
Proof.
  induction nos as [|[n v] nos IH] using rev_ind.
  - cbn. by rewrite (left_id_L ∅ (∪)).
  - rewrite assign_snoc, dom_insert_L, IH, fmap_app, list_to_set_app_L.
    cbn. rewrite (right_id_L ∅ (∪)), (assoc_L (∪)).
    f_equal. apply (comm_L (∪)).
Qed.

Lemma assign_size nos :
  NoDup nos.*1 → size (assign ∅ nos) = length nos.
Proof.
  induction nos as [|[n v] nos IH] using rev_ind; [done|].
  rewrite fmap_app, assign_snoc, length_app. cbn.
  intros (Hnd & Hfresh & _)%NoDup_app.
  rewrite map_size_insert_None, IH; [lia|done|].
  rewrite assign_lookup_other; [done|].
  intros Hin. apply (Hfresh n Hin). by left.
Qed.

Lemma named_fst steps outs :
  length outs = length steps →
  (named steps outs).*1 = StepDefinition.name <$> steps.
Proof.
  intros Hlen. unfold named. apply fst_zip. rewrite length_fmap. lia.
Qed.

Lemma named_lookup steps outs i s o :
  steps !! i = Some s → outs !! i = Some o →
  named steps outs !! i = Some (StepDefinition.name s, o).
Proof.
  intros Hs Ho. unfold named, zip.
  apply lookup_zip_with_Some. exists (StepDefinition.name s), o.
  rewrite list_lookup_fmap, Hs. done.
Qed.

Lemma named_take i steps outs :
  take i (named steps outs) = named (take i steps) (take i outs).
Proof. unfold named. rewrite fmap_take. apply zip_with_take. Qed.
End Results.

(** ** run *)

Section Run.
Context `{Host}.
Implicit Types (m : Machine) (steps before after : list StepDefinition.t).

Lemma run_eq this m :
  SagaBuilder.run this m =
  match SagaBuilder.for_of (SagaBuilder.steps this) SagaBuilder.entry m with
  | (Normal (SagaBuilder.Next l'), m') =>
      (Normal (Success (SagaBuilder.lastOutput l') (SagaBuilder.results l')), m')
  | (Normal (SagaBuilder.Return r), m') => (Normal r, m')
  | (Throw e, m') => SagaBuilder.guarded (throw e) m'
  end.
Proof.
  unfold SagaBuilder.run, SagaBuilder.guarded, try_catch, bind at 1, throw.
  destruct (SagaBuilder.for_of _ _ m) as [[[l'|r]|e] m']; done.
Qed.

(** What the outer handler returns is a failed result at "orchestrator",
    or the throw of the normalization. *)
Lemma guarded_throw e m :
  SagaBuilder.guarded (throw e) m =
  match SagaBuilder.normalize e m with
  | (Normal error, m') => (Normal (Failed error "orchestrator"), m')
  | (Throw e', m') => (Throw e', m')
  end.
Proof.
  unfold SagaBuilder.guarded, try_catch, throw, bind.
  by destruct (SagaBuilder.normalize e m) as [[] ?].
Qed.

(** The run in which the loop falls through. *)
Lemma run_Next steps l' m m' :
  SagaBuilder.for_of steps SagaBuilder.entry m
    = (Normal (SagaBuilder.Next l'), m') →
  SagaBuilder.run {| SagaBuilder.steps := steps |} m =
    (Normal (Success (SagaBuilder.lastOutput l') (SagaBuilder.results l')), m').
Proof. intros Hfor. rewrite run_eq. cbn. by rewrite Hfor. Qed.

(** A run that returns a success result is one in which the loop fell
    through. *)
Lemma run_Success_inv steps m d r m' :
  SagaBuilder.run {| SagaBuilder.steps := steps |} m
    = (Normal (Success d r), m') →
  ∃ l', SagaBuilder.for_of steps SagaBuilder.entry m
          = (Normal (SagaBuilder.Next l'), m') ∧
        d = SagaBuilder.lastOutput l' ∧ r = SagaBuilder.results l'.
Proof.
  rewrite run_eq. cbn [SagaBuilder.steps].
  destruct (SagaBuilder.for_of steps SagaBuilder.entry m)
    as [[[l'|r']|e] m''] eqn:Hfor.
  - intros [= <- <- <-]. eauto.
  - destruct (for_of_stop _ _ _ _ _ Hfor) as (? & s & ? & l1 & m1 & _ & _ & Hit);
      [done|].
    destruct (iteration_log _ _ _ _ _ Hit) as (? & ? & _ & _ & _ & (? & ->) & _).
    done.
  - rewrite guarded_throw.
    by destruct (SagaBuilder.normalize e m'') as [[] ?].
Qed.

(** Steps [before] succeed and the next step [s] throws [e]: the records
    of [before] are compensated in the world the failing [execute] left,
    and [run] ends as its outer [try] ends around the normalization of
    [e] for a failure at [s]. *)
Lemma run_failure before s after m d r m1 e w :
  SagaBuilder.run {| SagaBuilder.steps := before |} m
    = (Normal (Success d r), m1) →
  StepDefinition.execute s (StepDefinition.input s)
    {| StepContext.results := r |} (world m1) = (Throw e, w) →
  ∃ new m2 comps,
    calls m1 = calls m ++ new ∧
    console m1 = console m ∧
    rollbacks new = [] ∧
    length (outputs new) = length before ∧
    (executes new).*1.*1 = before ∧
    Forall genuine new ∧
    SagaBuilder.rollback (zip_with record before (outputs new))
      {| world := w;
         calls := calls m1 ++
           [CallExecute s {| StepContext.results := r |} (Throw e)];
         console := console m1 |} = (Normal (), m2) ∧
    calls m2 = calls m1 ++
      CallExecute s {| StepContext.results := r |} (Throw e) :: comps ∧
    executes comps = [] ∧
    rollbacks comps = to_compensate (zip_with record before (outputs new)) ∧
    console m2 = console m1 ++ failures comps ∧
    Forall genuine comps ∧
    world m2 =
      compensation (reverse (zip_with record before (outputs new))) w ∧
    SagaBuilder.run {| SagaBuilder.steps := before ++ s :: after |} m =
      SagaBuilder.guarded
        (error <- SagaBuilder.normalize e ;;
         ret (Failed error (StepDefinition.name s))) m2.
Proof.
  intros Hpre Hex.
  destruct (run_Success_inv _ _ _ _ _ Hpre) as (l1 & Hb & -> & ->).
  destruct (for_of_Next _ _ _ _ _ Hb)
    as (new & Hc & Hk & Hr & Hlen & Hst & _ & Hg & _ & Hes & _).
  cbn in Hes.
  pose proof (iteration_eq s l1 m1) as Hit. cbn zeta in Hit.
  rewrite Hex in Hit.
  match type of Hit with context [SagaBuilder.caught s l1 e ?m0] =>
    destruct (caught_spec s l1 e m0)
      as (m2 & comps & Hrb & Hc2 & He2 & Hr2 & Hk2 & Hg2 & Hw2 & Hca)
  end.
  rewrite Hca in Hit. rewrite Hes in Hrb, Hr2, Hw2.
  cbn in Hc2, Hk2, Hw2. rewrite <- app_assoc in Hc2.
  exists new, m2, comps. split_and!; try done.
  rewrite run_eq. cbn [SagaBuilder.steps].
  rewrite for_of_app, Hb, for_of_cons, Hit.
  unfold SagaBuilder.guarded, try_catch, bind, throw, ret.
  by destruct (SagaBuilder.normalize e m2) as [[err|e'] m3].
Qed.
(** The outer [try] around a normalization that completes, and around
    one that throws. *)
Lemma guarded_normalized e name m2 error m' :
  SagaBuilder.normalize e m2 = (Normal error, m') →
  SagaBuilder.guarded
    (error <- SagaBuilder.normalize e ;; ret (Failed error name)) m2
  = (Normal (Failed error name), m').
Proof.
  intros Hn. unfold SagaBuilder.guarded, try_catch, bind. by rewrite Hn.
Qed.

Lemma guarded_escaped e name m2 e2 m3 :
  SagaBuilder.normalize e m2 = (Throw e2, m3) →
  SagaBuilder.guarded
    (error <- SagaBuilder.normalize e ;; ret (Failed error name)) m2
  = SagaBuilder.guarded (throw e2) m3.
Proof.
  intros Hn. unfold SagaBuilder.guarded, try_catch, bind, throw.
  by rewrite Hn.
Qed.

(** Normalizing an error invokes no operation of the saga. *)
Lemma normalize_log e m2 c m' :
  SagaBuilder.normalize e m2 = (c, m') →
  calls m' = calls m2 ∧ console m' = console m2.
Proof.
  intros Hn. pose proof (normalize_frame e m2) as Hf.
  by rewrite Hn in Hf.
Qed.

Lemma guarded_throw_log e m c m' :
  SagaBuilder.guarded (throw e) m = (c, m') →
  calls m' = calls m ∧ console m' = console m.
Proof.
  rewrite guarded_throw.
  destruct (SagaBuilder.normalize e m) as [[err|e'] m3] eqn:Hn;
    intros [= <- <-]; by apply normalize_log in Hn.
Qed.


(** [run_failure], read off the log of the run. *)
Lemma run_failure_log before s after m d r m1 e w :
  SagaBuilder.run {| SagaBuilder.steps := before |} m
    = (Normal (Success d r), m1) →
  StepDefinition.execute s (StepDefinition.input s)
    {| StepContext.results := r |} (world m1) = (Throw e, w) →
  ∃ m2 comps,
    SagaBuilder.rollback
      (zip_with record before (outputs (log_since m m1)))
      {| world := w;
         calls := calls m1 ++
           [CallExecute s {| StepContext.results := r |} (Throw e)];
         console := console m1 |} = (Normal (), m2) ∧
    log_since m m2 =
      log_since m m1 ++
      CallExecute s {| StepContext.results := r |} (Throw e) :: comps ∧
    log_since m1 m2 =
      CallExecute s {| StepContext.results := r |} (Throw e) :: comps ∧
    console m1 = console m ∧
    rollbacks (log_since m m1) = [] ∧
    length (outputs (log_since m m1)) = length before ∧
    (executes (log_since m m1)).*1.*1 = before ∧
    executes comps = [] ∧
    rollbacks comps =
      to_compensate (zip_with record before (outputs (log_since m m1))) ∧
    console m2 = console m1 ++ failures comps ∧
    Forall genuine (log_since m m2) ∧
    world m2 =
      compensation
        (reverse (zip_with record before (outputs (log_since m m1)))) w ∧
    SagaBuilder.run {| SagaBuilder.steps := before ++ s :: after |} m =
      SagaBuilder.guarded
        (error <- SagaBuilder.normalize e ;;
         ret (Failed error (StepDefinition.name s))) m2.
Proof.
  intros Hpre Hex.
  destruct (run_failure before s after _ _ _ _ _ _ Hpre Hex)
    as (new & m2 & comps & Hc1 & Hk1 & Hr & Hlen & Hst & Hg & Hrb & Hc2 & He2
        & Hr2 & Hk2 & Hg2 & Hw2 & Hrun).
  exists m2, comps.
  assert (Hc : calls m2 = calls m ++ new ++
            CallExecute s {| StepContext.results := r |} (Throw e) :: comps)
    by (by rewrite Hc2, Hc1, <- app_assoc).
  rewrite (log_since_app _ _ _ Hc), (log_since_app _ _ _ Hc1),
    (log_since_app _ _ _ Hc2).
  split_and!; try done.
  apply Forall_app. split; [done|].
  apply Forall_cons. split; [|done]. exists (world m1). by rewrite Hex.
Qed.

(** Operations that add nothing to the log leave every view of it as it
    was. *)
Lemma log_since_same m m2 m' :
  calls m' = calls m2 → log_since m m' = log_since m m2.
Proof. unfold log_since. by intros ->. Qed.
End Run.

(** ** The execute invocations of a run *)

Section Trace.
Context `{Host}.
Implicit Types (m : Machine) (steps : list StepDefinition.t)
  (outs : list value) (r : gmap string value).

Lemma forward_trace_length r steps outs :
  length outs = length steps →
  length (forward_trace r steps outs) = length steps.
Proof.
  intros Hlen. unfold forward_trace.
  rewrite length_imap, length_zip_with. lia.
Qed.

(** Any invocation of a successful pass: it is the step at its own
    position, it is handed the results assigned by the steps before it,
    and the invocations before it are the pass over those steps. *)
Lemma forward_trace_split r steps outs pre step ctx comp post :
  length outs = length steps →
  forward_trace r steps outs = pre ++ (step, ctx, comp) :: post →
  steps !! length pre = Some step ∧
  pre = forward_trace r (take (length pre) steps) (take (length pre) outs) ∧
  StepContext.results ctx =
    assign r (named (take (length pre) steps) (take (length pre) outs)) ∧
  ∃ o, comp = Normal o.
Proof.
  revert r outs pre.
  induction steps as [|s steps IH]; intros r [|o outs] pre Hlen; try done.
  - by destruct pre.
  - injection Hlen as Hlen.
    rewrite forward_trace_cons. destruct pre as [|p pre].
    + intros Heq. rewrite app_nil_l in Heq. simplify_eq. cbn. eauto.
    + rewrite <- app_comm_cons. intros Heq.
      injection Heq as <- Hrest.
      destruct (IH _ _ _ Hlen Hrest) as (Hs & Hpre & Hctx & Ho).
      cbn [length take].
      split_and!; [done| |done|done].
      rewrite forward_trace_cons. by f_equal.
Qed.

Lemma split_snoc {A} (pre post l : list A) (x y : A) :
  l ++ [y] = pre ++ x :: post →
  (post = [] ∧ pre = l ∧ x = y) ∨
  (∃ post', post = post' ++ [y] ∧ l = pre ++ x :: post').
Proof.
  destruct post as [|z post _] using rev_ind.
  - intros [-> ->]%app_inj_tail. by left.
  - rewrite app_comm_cons, app_assoc.
    intros [-> ->]%app_inj_tail. right. eauto.
Qed.

(** The [execute] invocations of a run under ordinary names: a
    successful pass over the first steps, followed, if the run did not
    succeed, by the invocation that threw. *)
Lemma run_trace this m c m' :
  Forall (λ s, ordinary (StepDefinition.name s)) (SagaBuilder.steps this) →
  SagaBuilder.run this m = (c, m') →
  ∃ outs tail,
    executes (log_since m m') =
      forward_trace ∅ (take (length outs) (SagaBuilder.steps this)) outs
        ++ tail ∧
    length outs ≤ length (SagaBuilder.steps this) ∧
    Forall genuine (log_since m m') ∧
    (tail = [] ∨
     ∃ s e,
       SagaBuilder.steps this !! length outs = Some s ∧
       tail = [(s, {| StepContext.results :=
                        assign ∅ (named (take (length outs)
                                           (SagaBuilder.steps this)) outs) |},
                Throw e)]).
Proof.
  destruct this as [steps]. cbn [SagaBuilder.steps]. intros Hord Hrun.
  rewrite run_eq in Hrun. cbn [SagaBuilder.steps] in Hrun.
  destruct (SagaBuilder.for_of steps SagaBuilder.entry m)
    as [c0 m0] eqn:Hfor.
  assert ((∃ l', c0 = Normal (SagaBuilder.Next l')) ∨
          ¬ (∃ l', c0 = Normal (SagaBuilder.Next l'))) as [[l' ->]|Hno].
  { destruct c0 as [[|]|]; [left; eauto|right; intros [? [=]]..]. }
  - injection Hrun as <- <-.
    destruct (for_of_Next _ _ _ _ _ Hfor) as (new & Hc & _ & _ & Hlen & _ & _ & Hg & _).
    destruct (for_of_Next_ordinary _ _ _ _ _ Hord Hfor) as [He _].
    rewrite (log_since_app _ _ _ Hc) in *.
    exists (outputs new), [].
    rewrite He, Hlen, firstn_all, app_nil_r.
    split_and!; [done|lia|done|by left].
  - destruct (for_of_stop _ _ _ _ _ Hfor)
      as (before & s & after & l1 & m1 & -> & Hb & Hit); [naive_solver|].
    apply Forall_app in Hord as [Hordb Hords].
    apply Forall_cons in Hords as [Hs _].
    destruct (for_of_Next _ _ _ _ _ Hb)
      as (new & Hc & _ & _ & Hlen & _ & _ & Hg & _).
    destruct (for_of_Next_ordinary _ _ _ _ _ Hordb Hb) as [He ->].
    rewrite (log_since_app _ _ _ Hc) in He.
    destruct (iteration_stop _ _ _ _ _ Hs Hit)
      as (e & w & comps & _ & Hc' & Hec & Hg'); [naive_solver|].
    rewrite (log_since_app _ _ _ Hc) in Hc', Hg'. cbn in Hc', Hg'.
    assert (Hlog : calls m' = calls m ++ new ++
      CallExecute s
        {| StepContext.results := assign ∅ (named before (outputs new)) |}
        (Throw e) :: comps).
    { assert (calls m' = calls m0).
      { destruct c0 as [[|r]|e0]; [destruct Hno; eauto| |].
        - by injection Hrun as _ <-.
        - rewrite guarded_throw in Hrun.
          pose proof (normalize_frame e0 m0) as [Hn _].
          destruct (SagaBuilder.normalize e0 m0) as [[] ?];
            injection Hrun as _ <-; done. }
      by rewrite H1, Hc', Hc, <- app_assoc. }
    exists (outputs new),
      [(s, {| StepContext.results := assign ∅ (named before (outputs new)) |},
        Throw e)].
    rewrite (log_since_app _ _ _ Hlog), !executes_app, He, Hlen.
    rewrite take_app_length.
    change (executes (?c :: comps)) with
      ((s, {| StepContext.results := assign ∅ (named before (outputs new)) |},
        @Throw _ value e) :: executes comps).
    rewrite Hec. split_and!; [done| | |].
    + rewrite length_app. lia.
    + apply Forall_app. split; [done|]. exact Hg'.
    + right. exists s, e. by rewrite list_lookup_middle.
Qed.
End Trace.

(** * The claims of the specification *)

Section Specification.
Context `{Host}.
Implicit Types (m : Machine) (steps before after : list StepDefinition.t).


(** C4, as amended. A compensation pass always completes normally,
    whatever its rollback operations do: it invokes the rollback
    operation of every record that has one, newest first, also after
    one of them threw; each rollback that threw is reported on the
    console with the name of its step and the value thrown. And when a
    step's [execute] throws [e] and the normalization of [e] completes,
    the error of the failed result is [e] normalized ([e] itself when it
    is an Error object), whatever the rollback operations of the
    earlier steps do. *)
Theorem C4_rollback_failures_are_contained :
  (∀ (es : list ExecutedStep.t) m,
     ∃ m',
       SagaBuilder.rollback es m = (Normal (), m') ∧
       rollbacks (log_since m m') = to_compensate es ∧
       console m' = console m ++ failures (log_since m m')) ∧
  (∀ before s after m d r m1 e w,
     SagaBuilder.run {| SagaBuilder.steps := before |} m
       = (Normal (Success d r), m1) →
     StepDefinition.execute s (StepDefinition.input s)
       {| StepContext.results := r |} (world m1) = (Throw e, w) →
     completes (SagaBuilder.normalize e) →
     ∃ error m2 m',
       SagaBuilder.run {| SagaBuilder.steps := before ++ s :: after |} m
         = (Normal (Failed error (StepDefinition.name s)), m') ∧
       rollbacks (log_since m1 m') =
         to_compensate (zip_with record before (outputs (log_since m m1))) ∧
       console m' = console m1 ++ failures (log_since m1 m') ∧
       SagaBuilder.rollback
         (zip_with record before (outputs (log_since m m1)))
         {| world := w;
            calls := calls m1 ++
              [CallExecute s {| StepContext.results := r |} (Throw e)];
            console := console m1 |} = (Normal (), m2) ∧
       SagaBuilder.normalize e m2 = (Normal error, m') ∧
       (∀ name message, e = VError name message → error = e)).
Proof.
  split.
  - intros es m.
    destruct (rollback_spec es m) as (m' & new & Hrun & Hc & _ & Hr & Hk & _).
    exists m'. by rewrite (log_since_app _ _ _ Hc).
  - intros before s after m d r m1 e w Hpre Hex Hcomp.
    destruct (run_failure_log before s after _ _ _ _ _ _ Hpre Hex)
      as (m2 & comps & Hrb & _ & Hlog & _ & _ & _ & _ & _ & Hrc & Hk & _
          & _ & Hrun).
    destruct (Hcomp m2) as (error & m' & Hn).
    exists error, m2, m'.
    destruct (normalize_log _ _ _ _ Hn) as [Hc Hk'].
    rewrite (log_since_same m1 _ _ Hc), Hlog, Hk'.
    rewrite Hrun, (guarded_normalized _ _ _ _ _ Hn).
    split_and!; try done.
    intros name message ->. cbn in Hn. unfold bind, ret in Hn. cbn in Hn.
    by injection Hn as <- _.
Qed.

(** C5, as amended. Steps 1..k-1 succeed and the k-th step throws [v];
    [m2] is the machine the compensation pass ends in. If [v] is found
    to be an Error object, it is the error of the failed result,
    unchanged; if it is found not to be one and its conversion to text
    completes, with [text], the error is a new Error object whose
    message is [text]; thrown the string "String error", the message is
    "String error". *)
Theorem C5_thrown_value_is_normalized before s after m d r m1 v w :
  SagaBuilder.run {| SagaBuilder.steps := before |} m
    = (Normal (Success d r), m1) →
  StepDefinition.execute s (StepDefinition.input s)
    {| StepContext.results := r |} (world m1) = (Throw v, w) →
  ∃ m2,
    SagaBuilder.rollback
      (zip_with record before (outputs (log_since m m1)))
      {| world := w;
         calls := calls m1 ++
           [CallExecute s {| StepContext.results := r |} (Throw v)];
         console := console m1 |} = (Normal (), m2) ∧
    (∀ m3,
       SagaBuilder.instanceof_Error v m2 = (Normal true, m3) →
       SagaBuilder.run {| SagaBuilder.steps := before ++ s :: after |} m
         = (Normal (Failed v (StepDefinition.name s)), m3)) ∧
    (∀ m3 text m',
       SagaBuilder.instanceof_Error v m2 = (Normal false, m3) →
       SagaBuilder.String_ v m3 = (Normal text, m') →
       SagaBuilder.run {| SagaBuilder.steps := before ++ s :: after |} m
         = (Normal (Failed (new_Error text) (StepDefinition.name s)), m') ∧
       message_of (new_Error text) = Some text) ∧
    (v = VString "String error" →
     SagaBuilder.run {| SagaBuilder.steps := before ++ s :: after |} m
       = (Normal (Failed (new_Error "String error") (StepDefinition.name s)),
          m2)).
Proof.
  intros Hpre Hex.
  destruct (run_failure_log before s after _ _ _ _ _ _ Hpre Hex)
    as (m2 & comps & Hrb & _ & _ & _ & _ & _ & _ & _ & _ & _ & _ & _ & Hrun).
  exists m2. rewrite Hrun. split_and!; [done| | |].
  - intros m3 Hi. apply guarded_normalized.
    unfold SagaBuilder.normalize, bind. by rewrite Hi.
  - intros m3 text m' Hi Hs. split; [|done]. apply guarded_normalized.
    unfold SagaBuilder.normalize, bind. by rewrite Hi, Hs.
  - intros ->. by apply guarded_normalized.
Qed.

(** C7, as amended. Steps 1..k-1 succeed, the k-th step [s] throws [e],
    and after the compensation pass (ending in [m2]) the normalization
    of [e] itself throws, [e2]: an error that escapes the handler of
    the step. If the normalization of [e2] completes, with [error],
    [run] returns, rather than throws, a failed result carrying [error]
    whose [failedAt] is the fixed name "orchestrator"; the steps 1..k
    were executed and steps k-1, ..., 1 compensated. And [step] accepts
    a definition under the name "orchestrator" as under any other. *)
Theorem C7_escaping_error_is_a_failed_result
    before s after m d r m1 e w m2 e2 m3 error m' :
  SagaBuilder.run {| SagaBuilder.steps := before |} m
    = (Normal (Success d r), m1) →
  StepDefinition.execute s (StepDefinition.input s)
    {| StepContext.results := r |} (world m1) = (Throw e, w) →
  SagaBuilder.rollback
    (zip_with record before (outputs (log_since m m1)))
    {| world := w;
       calls := calls m1 ++
         [CallExecute s {| StepContext.results := r |} (Throw e)];
       console := console m1 |} = (Normal (), m2) →
  SagaBuilder.normalize e m2 = (Throw e2, m3) →
  SagaBuilder.normalize e2 m3 = (Normal error, m') →
  SagaBuilder.run {| SagaBuilder.steps := before ++ s :: after |} m
    = (Normal (Failed error "orchestrator"), m') ∧
  (executes (log_since m m')).*1.*1 = before ++ [s] ∧
  rollbacks (log_since m m') =
    to_compensate (zip_with record before (outputs (log_since m m1))) ∧
  (∀ this input execute rollback,
     SagaBuilder.steps
       (SagaBuilder.step this "orchestrator" input execute rollback) =
     SagaBuilder.steps this ++
       [ {| StepDefinition.name := "orchestrator";
            StepDefinition.input := input;
            StepDefinition.execute := execute;
            StepDefinition.rollback := rollback |} ]).
Proof.
  intros Hpre Hex Hrb Hn Hn2.
  destruct (run_failure_log before s after _ _ _ _ _ _ Hpre Hex)
    as (m2' & comps & Hrb' & Hlog & _ & _ & Hr & _ & Hst & Hec & Hrc & _
        & _ & _ & Hrun).
  rewrite Hrb in Hrb'. injection Hrb' as <-.
  destruct (normalize_log _ _ _ _ Hn) as [Hc _].
  destruct (normalize_log _ _ _ _ Hn2) as [Hc2 _].
  rewrite Hc in Hc2.
  rewrite (log_since_same m _ _ Hc2), Hlog.
  rewrite Hrun, (guarded_escaped _ _ _ _ _ Hn), guarded_throw, Hn2.
  rewrite executes_app, rollbacks_app.
  change (executes (?c :: comps)) with
    ((s, {| StepContext.results := r |}, @Throw _ value e) :: executes comps).
  change (rollbacks (?c :: comps)) with (rollbacks comps).
  rewrite Hec, Hr, Hrc, !fmap_app, Hst.
  done.
Qed.

(** C8. In one compensation pass no record is compensated twice: the
    indices of the rollback invocations are distinct; the records
    compensated are exactly those that have a rollback operation; and a
    record without one is passed over, the pass being the pass over the
    older records. *)
Theorem C8_at_most_one_rollback_per_record (es : list ExecutedStep.t) m :
  ∃ m',
    SagaBuilder.rollback es m = (Normal (), m') ∧
    NoDup (rollbacks (log_since m m')).*1 ∧
    (∀ i step,
       (i, step) ∈ rollbacks (log_since m m') ↔
       es !! i = Some step ∧ is_Some (ExecutedStep.rollback step)) ∧
    (∀ older step,
       es = older ++ [step] → ExecutedStep.rollback step = None →
       SagaBuilder.rollback es m = SagaBuilder.rollback older m).
Proof.
  destruct (rollback_spec es m) as (m' & new & Hrun & Hc & _ & Hr & _).
  exists m'. rewrite (log_since_app _ _ _ Hc), Hr. split_and!.
  - done.
  - apply to_compensate_indices_NoDup.
  - intros i step. apply elem_of_to_compensate.
  - intros older step -> Hnone. by rewrite rollback_skip.
Qed.

End Specification.

(** ** Builder references *)

Section References.
Context `{Host}.

(** C9, as amended. Registering a step on an allocated builder runs
    nothing and touches neither the world, the log nor the console: it
    appends the step to that builder's own list and returns the
    reference it was called on. So every chain reference derived from
    one base denotes the same builder, and a run through any of them
    executes every step appended through any of them; the other
    builders of the heap are left as they were. *)
Theorem C9_step_appends_to_the_shared_builder
    (this : nat) name input execute rollback (p : Store.Program) b :
  Store.heap p !! this = Some b →
  ∃ p',
    Store.step this name input execute rollback p = (Normal this, p') ∧
    Store.machine p' = Store.machine p ∧
    Store.steps_of this p' =
      Some (SagaBuilder.steps b ++
              [ {| StepDefinition.name := name;
                   StepDefinition.input := input;
                   StepDefinition.execute := execute;
                   StepDefinition.rollback := rollback |} ]) ∧
    (∀ other, other ≠ this → Store.heap p' !! other = Store.heap p !! other) ∧
    (Store.run this p').1 =
      (SagaBuilder.run
         (SagaBuilder.step b name input execute rollback) (Store.machine p)).1.
Proof.
  intros Hb. unfold Store.step, Store.steps_of, Store.run. rewrite Hb.
  eexists. split; [reflexivity|]. cbn.
  assert (this < length (Store.heap p)) by (by eapply lookup_lt_Some).
  rewrite list_lookup_insert_eq by done. cbn.
  split_and!; [done|done| |].
  - intros other Hne. by rewrite list_lookup_insert_ne.
  - by destruct (SagaBuilder.run _ _).
Qed.
End References.

(** * Further properties of the engine *)

Section Further.
Context `{Host}.
Implicit Types (m : Machine) (steps before after : list StepDefinition.t)
  (es older newer : list ExecutedStep.t).

Lemma log_length (log : list Call) :
  length log = length (executes log) + length (rollbacks log).
Proof.
  induction log as [|[] log IH]; [done|..].
  - change (executes (?c :: log)) with ((step, ctx, completion) :: executes log).
    change (rollbacks (?c :: log)) with (rollbacks log). cbn. lia.
  - change (executes (?c :: log)) with (executes log).
    change (rollbacks (?c :: log)) with ((i, step) :: rollbacks log).
    cbn. lia.
Qed.

Lemma forward_trace_all_normal r steps (outs : list value) :
  length outs = length steps →
  Forall (λ x, ∃ o, x.2 = Normal o) (forward_trace r steps outs).
Proof.
  intros Hlen. apply Forall_forall. intros x Hx.
  assert (Hin : x.2 ∈ (forward_trace r steps outs).*2)
    by (apply list_elem_of_fmap; eauto).
  rewrite forward_trace_completions in Hin by done.
  apply list_elem_of_fmap in Hin as (o & -> & _). eauto.
Qed.

(** The entries of a genuine log that are [execute] invocations hold
    the completion of [execute] on the context recorded. *)
Lemma executes_genuine (log : list Call) :
  Forall genuine log →
  Forall (λ x, ∃ w,
            (StepDefinition.execute x.1.1 (StepDefinition.input x.1.1)
               x.1.2 w).1 = x.2)
         (executes log).
Proof.
  induction 1 as [|[] log Hg _ IH]; [done| |done].
  change (executes (?c :: log)) with ((step, ctx, completion) :: executes log).
  by apply Forall_cons.
Qed.

(** The first thing an iteration does is to invoke [execute] on the
    results so far; the log holds that invocation with the completion
    it had. *)
Lemma iteration_call step l m c m' :
  SagaBuilder.iteration step l m = (c, m') →
  ∃ comps,
    calls m' = calls m ++
      CallExecute step {| StepContext.results := SagaBuilder.results l |}
        (StepDefinition.execute step (StepDefinition.input step)
           {| StepContext.results := SagaBuilder.results l |} (world m)).1
      :: comps.
Proof.
  intros Hit.
  destruct (iteration_log _ _ _ _ _ Hit) as (comp & comps & Hc & _).
  exists comps. rewrite Hc. do 3 f_equal.
  rewrite iteration_eq in Hit. cbn zeta in Hit.
  destruct (StepDefinition.execute _ _ _ _) as [[o|e] w]; cbn.
  - match type of Hit with context [SagaBuilder.store ?r ?n ?v ?m0] =>
      pose proof (store_frame r n v m0) as [Hsc _];
      destruct (SagaBuilder.store r n v m0) as [[r'|e] ms]
    end; cbn in Hsc.
    + injection Hit as _ <-. rewrite Hsc in Hc.
      apply app_inv_head in Hc. by injection Hc as <-.
    + destruct (caught_spec step l e ms) as (m2 & cs & _ & Hc2 & _ & _ & _ & _ & _ & Hca).
      rewrite Hca in Hit.
      assert (calls m' = calls m2) as Hm.
      { pose proof (normalize_frame e m2) as [Hn _].
        destruct (SagaBuilder.normalize e m2) as [[] ?];
          by injection Hit as _ <-. }
      rewrite Hm, Hc2, Hsc, <- app_assoc in Hc.
      apply app_inv_head in Hc. by injection Hc as <-.
  - match type of Hit with context [SagaBuilder.caught step l e ?m0] =>
      destruct (caught_spec step l e m0)
        as (m2 & cs & _ & Hc2 & _ & _ & _ & _ & _ & Hca)
    end.
    rewrite Hca in Hit.
    assert (calls m' = calls m2) as Hm.
    { pose proof (normalize_frame e m2) as [Hn _].
      destruct (SagaBuilder.normalize e m2) as [[] ?];
        by injection Hit as _ <-. }
    rewrite Hm, Hc2 in Hc. cbn in Hc. rewrite <- app_assoc in Hc.
    apply app_inv_head in Hc. by injection Hc as <-.
Qed.

(** The loop only adds to the log. *)
Lemma for_of_extends steps l m c m' :
  SagaBuilder.for_of steps l m = (c, m') →
  ∃ new, calls m' = calls m ++ new.
Proof.
  intros Hfor.
  assert ((∃ l', c = Normal (SagaBuilder.Next l')) ∨
          (∀ l', c ≠ Normal (SagaBuilder.Next l'))) as [[l' ->]|Hno].
  { destruct c as [[|]|]; [left; eauto|right; intros ? [=]..]. }
  - destruct (for_of_Next _ _ _ _ _ Hfor) as (new & Hc & _). eauto.
  - destruct (for_of_stop _ _ _ _ _ Hfor Hno)
      as (before & s & after & l1 & m1 & _ & Hb & Hit).
    destruct (for_of_Next _ _ _ _ _ Hb) as (new & Hc & _).
    destruct (iteration_log _ _ _ _ _ Hit) as (comp & comps & Hc' & _).
    eexists. by rewrite Hc', Hc, <- app_assoc.
Qed.

(** The outer handler adds nothing to the log. *)
Lemma run_for_of_calls this m :
  calls (SagaBuilder.run this m).2 =
  calls (SagaBuilder.for_of (SagaBuilder.steps this) SagaBuilder.entry m).2.
Proof.
  rewrite run_eq.
  destruct (SagaBuilder.for_of _ _ m) as [[[l'|r]|e] m0]; [done..|].
  destruct (SagaBuilder.guarded (throw e) m0) as [c m'] eqn:Hg.
  apply guarded_throw_log in Hg as [Hg _]. exact Hg.
Qed.

(** How the outer [try] around the normalization of the error of a
    failing step ends. *)
Lemma guarded_failure_inv e name m2 c m' :
  SagaBuilder.guarded
    (error <- SagaBuilder.normalize e ;; ret (Failed error name)) m2
    = (c, m') →
  calls m' = calls m2 ∧ console m' = console m2 ∧
  ((∃ error, c = Normal (Failed error name) ∧
             SagaBuilder.normalize e m2 = (Normal error, m')) ∨
   (∃ e2 m3,
      SagaBuilder.normalize e m2 = (Throw e2, m3) ∧
      ((∃ error, c = Normal (Failed error "orchestrator") ∧
                 SagaBuilder.normalize e2 m3 = (Normal error, m')) ∨
       (∃ e3, c = Throw e3 ∧
              SagaBuilder.normalize e2 m3 = (Throw e3, m'))))).
Proof.
  destruct (SagaBuilder.normalize e m2) as [[error|e2] m3] eqn:Hn.
  - rewrite (guarded_normalized _ _ _ _ _ Hn). intros [= <- <-].
    destruct (normalize_log _ _ _ _ Hn) as [Hc Hk]. eauto 10.
  - rewrite (guarded_escaped _ _ _ _ _ Hn), guarded_throw.
    destruct (normalize_log _ _ _ _ Hn) as [Hc Hk].
    destruct (SagaBuilder.normalize e2 m3) as [[error|e3] m4] eqn:Hn2;
      intros [= <- <-];
      destruct (normalize_log _ _ _ _ Hn2) as [Hc2 Hk2];
      rewrite Hc2, Hk2; (split; [done|]; split; [done|]);
      right; exists e2, m3; (split; [done|]); [left|right]; eauto.
Qed.

(** The two ways a run over ordinary names goes: every step returned,
    or the steps before some step returned and that step threw. *)
Lemma run_cases steps m c m' :
  Forall (λ s, ordinary (StepDefinition.name s)) steps →
  SagaBuilder.run {| SagaBuilder.steps := steps |} m = (c, m') →
  (∃ l', SagaBuilder.for_of steps SagaBuilder.entry m
           = (Normal (SagaBuilder.Next l'), m') ∧
         c = Normal (Success (SagaBuilder.lastOutput l')
                       (SagaBuilder.results l'))) ∨
  (∃ before s after d r m1 e w,
     steps = before ++ s :: after ∧
     SagaBuilder.run {| SagaBuilder.steps := before |} m
       = (Normal (Success d r), m1) ∧
     StepDefinition.execute s (StepDefinition.input s)
       {| StepContext.results := r |} (world m1) = (Throw e, w)).
Proof.
  intros Hord Hrun.
  destruct (SagaBuilder.for_of steps SagaBuilder.entry m) as [c0 m0] eqn:Hfor.
  assert ((∃ l', c0 = Normal (SagaBuilder.Next l')) ∨
          (∀ l', c0 ≠ Normal (SagaBuilder.Next l'))) as [[l' ->]|Hno].
  { destruct c0 as [[|]|]; [left; eauto|right; intros ? [=]..]. }
  - left. exists l'. rewrite (run_Next _ _ _ _ Hfor) in Hrun.
    by injection Hrun as <- <-.
  - right.
    destruct (for_of_stop _ _ _ _ _ Hfor Hno)
      as (before & s & after & l1 & m1 & -> & Hb & Hit).
    apply Forall_app in Hord as [_ [Hs _]%Forall_cons].
    destruct (iteration_stop _ _ _ _ _ Hs Hit Hno) as (e & w & _ & Hex & _).
    exists before, s, after, (SagaBuilder.lastOutput l1),
      (SagaBuilder.results l1), m1, e, w.
    split; [done|]. split; [by apply run_Next|done].
Qed.

(** Any invocation of a run over ordinary names, by its position in the
    log: it is of the step at that position and is handed the results
    assigned by the steps before it. *)
Lemma run_trace_lookup this m c m' i s ctx comp :
  Forall (λ s, ordinary (StepDefinition.name s)) (SagaBuilder.steps this) →
  SagaBuilder.run this m = (c, m') →
  executes (log_since m m') !! i = Some (s, ctx, comp) →
  SagaBuilder.steps this !! i = Some s ∧
  ∃ outs,
    length outs = i ∧
    StepContext.results ctx =
      assign ∅ (named (take i (SagaBuilder.steps this)) outs).
Proof.
  intros Hord Hrun Hi.
  destruct (run_trace _ _ _ _ Hord Hrun) as (outs & tail & He & Hle & _ & Htail).
  rewrite He in Hi. clear He Hrun.
  set (steps := SagaBuilder.steps this) in *.
  assert (Hk : length outs = length (take (length outs) steps))
    by (by rewrite length_take_le).
  assert (Hin : forward_trace ∅ (take (length outs) steps) outs !! i
                = Some (s, ctx, comp) →
    steps !! i = Some s ∧
    ∃ outs', length outs' = i ∧
      StepContext.results ctx = assign ∅ (named (take i steps) outs')).
  { intros Hft.
    pose proof (lookup_lt_Some _ _ _ Hft) as Hlt.
    rewrite forward_trace_length in Hlt by done. rewrite <- Hk in Hlt.
    apply take_drop_middle in Hft.
    symmetry in Hft.
    destruct (forward_trace_split _ _ _ _ _ _ _ _ Hk Hft)
      as (Hs & _ & Hc & _).
    rewrite length_take_le in Hs, Hc
      by (rewrite forward_trace_length by done; lia).
    rewrite lookup_take_lt in Hs by done.
    rewrite take_take, Nat.min_l in Hc by lia.
    split; [done|]. exists (take i outs).
    by rewrite length_take_le by lia. }
  destruct Htail as [->|(s' & e & Hs' & ->)].
  - rewrite app_nil_r in Hi. auto.
  - apply lookup_app_Some in Hi as [Hi|[Hge Hi]]; [auto|].
    rewrite forward_trace_length in Hge, Hi by done.
    rewrite <- Hk in Hge, Hi.
    destruct (i - length outs) as [|?] eqn:Hd; [|done].
    assert (i = length outs) as -> by lia.
    injection Hi as <- <- <-. split; [done|]. eauto.
Qed.

(** X1. A run that returns a success result has executed every step
    once, in order, and has done nothing else: it invoked no rollback
    operation and wrote nothing to the console. *)
Theorem X1_success_compensates_nothing this m d r m' :
  SagaBuilder.run this m = (Normal (Success d r), m') →
  rollbacks (log_since m m') = [] ∧
  console m' = console m ∧
  (executes (log_since m m')).*1.*1 = SagaBuilder.steps this ∧
  length (log_since m m') = length (SagaBuilder.steps this).
Proof.
  destruct this as [steps]. cbn [SagaBuilder.steps]. intros Hrun.
  destruct (run_Success_inv _ _ _ _ _ Hrun) as (l' & Hfor & _).
  destruct (for_of_Next _ _ _ _ _ Hfor)
    as (new & Hc & Hk & Hr & Hlen & He & Hco & _ & Hln & _).
  rewrite (log_since_app _ _ _ Hc). done.
Qed.

(** X2. Over ordinary names the status of the result is decided by the
    [execute] invocations alone: [run] returns a success result exactly
    when none of the [execute] invocations it made threw. *)
Theorem X2_success_iff_no_execute_threw this m c m' :
  Forall (λ s, ordinary (StepDefinition.name s)) (SagaBuilder.steps this) →
  SagaBuilder.run this m = (c, m') →
  (∃ d r, c = Normal (Success d r)) ↔
  Forall (λ x, ∃ o, x.2 = Normal o) (executes (log_since m m')).
Proof.
  destruct this as [steps]. cbn [SagaBuilder.steps]. intros Hord Hrun.
  destruct (run_cases _ _ _ _ Hord Hrun)
    as [(l' & Hfor & ->)|(before & s & after & d & r & m1 & e & w & -> & Hpre & Hex)].
  - destruct (for_of_Next _ _ _ _ _ Hfor) as (new & Hc & _ & _ & _ & _ & Hco & _).
    rewrite (log_since_app _ _ _ Hc). split; [|eauto].
    intros _. apply Forall_forall. intros x Hx.
    assert (Hin : x.2 ∈ (executes new).*2) by (apply list_elem_of_fmap; eauto).
    rewrite Hco in Hin. apply list_elem_of_fmap in Hin as (o & -> & _). eauto.
  - destruct (run_failure_log before s after _ _ _ _ _ _ Hpre Hex)
      as (m2 & comps & _ & Hlog & _ & _ & _ & _ & _ & _ & _ & _ & _ & _ & Hrun').
    rewrite Hrun in Hrun'. symmetry in Hrun'.
    destruct (guarded_failure_inv _ _ _ _ _ Hrun') as (Hc & _ & Hcase).
    rewrite (log_since_same m _ _ Hc), Hlog, !executes_app. split.
    + intros (d' & r' & ->).
      destruct Hcase as [(? & [=] & _)|(? & ? & _ & [(? & [=] & _)|(? & [=] & _)])].
    + intros [_ Hall]%Forall_app.
      apply Forall_cons in Hall as [(? & [=]) _].
Qed.

(** X3. Over ordinary names a failed result names the step whose
    [execute] threw, or the orchestrator: the last [execute] invocation
    of the run threw, it is that of the registered step at its
    position, and either [failedAt] is that step's name and the error
    is the thrown value normalized, or that normalization itself threw,
    [failedAt] is "orchestrator" and the error is what was thrown then,
    normalized. *)
Theorem X3_failed_result_names_the_thrower this m error failedAt m' :
  Forall (λ s, ordinary (StepDefinition.name s)) (SagaBuilder.steps this) →
  SagaBuilder.run this m = (Normal (Failed error failedAt), m') →
  ∃ pre s ctx e m2,
    executes (log_since m m') = pre ++ [(s, ctx, Throw e)] ∧
    SagaBuilder.steps this !! length pre = Some s ∧
    calls m2 = calls m' ∧
    ((failedAt = StepDefinition.name s ∧
      SagaBuilder.normalize e m2 = (Normal error, m')) ∨
     (failedAt = "orchestrator" ∧
      ∃ e2 m3, SagaBuilder.normalize e m2 = (Throw e2, m3) ∧
               SagaBuilder.normalize e2 m3 = (Normal error, m'))).
Proof.
  destruct this as [steps]. cbn [SagaBuilder.steps]. intros Hord Hrun.
  destruct (run_cases _ _ _ _ Hord Hrun)
    as [(l' & Hfor & [=])|(before & s & after & d & r & m1 & e & w & -> & Hpre & Hex)].
  destruct (run_failure_log before s after _ _ _ _ _ _ Hpre Hex)
    as (m2 & comps & _ & Hlog & _ & _ & _ & Hlen & Hst & Hec & _ & _ & _ & _ & Hrun').
  rewrite Hrun in Hrun'. symmetry in Hrun'.
  destruct (guarded_failure_inv _ _ _ _ _ Hrun') as (Hc & _ & Hcase).
  exists (executes (log_since m m1)), s, {| StepContext.results := r |}, e, m2.
  rewrite (log_since_same m _ _ Hc), Hlog, !executes_app.
  change (executes (?c :: comps)) with
    ((s, {| StepContext.results := r |}, @Throw _ value e) :: executes comps).
  rewrite Hec. split; [done|]. split.
  { assert (length (executes (log_since m m1)) = length before) as ->
      by (by rewrite <- Hst, !length_fmap).
    by rewrite list_lookup_middle. }
  split; [done|].
  destruct Hcase as [(? & [= <- <-] & Hn)|(e2 & m3 & Hn & [(? & [= <- <-] & Hn2)|(? & [=] & _)])].
  - by left.
  - right. eauto.
Qed.

(** X4. The steps registered after the one that throws have no
    influence at all: the run returns the same result and ends in the
    same machine as the run of the saga that stops at the failing step. *)
Theorem X4_steps_after_a_failure_are_ignored before s after m d r m1 e w :
  SagaBuilder.run {| SagaBuilder.steps := before |} m
    = (Normal (Success d r), m1) →
  StepDefinition.execute s (StepDefinition.input s)
    {| StepContext.results := r |} (world m1) = (Throw e, w) →
  SagaBuilder.run {| SagaBuilder.steps := before ++ s :: after |} m =
  SagaBuilder.run {| SagaBuilder.steps := before ++ [s] |} m.
Proof.
  intros Hpre Hex.
  destruct (run_failure_log before s after _ _ _ _ _ _ Hpre Hex)
    as (m2 & comps & Hrb & _ & _ & _ & _ & _ & _ & _ & _ & _ & _ & _ & ->).
  destruct (run_failure_log before s [] _ _ _ _ _ _ Hpre Hex)
    as (m2' & comps' & Hrb' & _ & _ & _ & _ & _ & _ & _ & _ & _ & _ & _ & ->).
  rewrite Hrb in Hrb'. by injection Hrb' as <-.
Qed.

(** X5. Automatic compensation is the Compensator itself: when step
    [s] throws [e] after the steps [before] returned, [run] ends as the
    normalization of [e], under the outer [try], ends when started on
    the machine in which [rollback], given the records of [before] with
    the outputs they returned, ends when started in the world the
    failing [execute] left behind. What the failing step did before it
    threw is not undone. *)
Theorem X5_failure_ends_where_rollback_ends before s after m d r m1 e w :
  SagaBuilder.run {| SagaBuilder.steps := before |} m
    = (Normal (Success d r), m1) →
  StepDefinition.execute s (StepDefinition.input s)
    {| StepContext.results := r |} (world m1) = (Throw e, w) →
  SagaBuilder.run {| SagaBuilder.steps := before ++ s :: after |} m =
  SagaBuilder.guarded
    (error <- SagaBuilder.normalize e ;;
     ret (Failed error (StepDefinition.name s)))
    (SagaBuilder.rollback
       (zip_with record before (outputs (log_since m m1)))
       {| world := w;
          calls := calls m1 ++
            [CallExecute s {| StepContext.results := r |} (Throw e)];
          console := console m1 |}).2.
Proof.
  intros Hpre Hex.
  destruct (run_failure_log before s after _ _ _ _ _ _ Hpre Hex)
    as (m2 & comps & Hrb & _ & _ & _ & _ & _ & _ & _ & _ & _ & _ & _ & ->).
  by rewrite Hrb.
Qed.

(** The pass does not read the log: started on machines with the same
    world and console it ends on machines with the same world and
    console. *)
Lemma rollback_from_agree n es m m' :
  world m = world m' → console m = console m' →
  world (SagaBuilder.rollback_from n es m).2
    = world (SagaBuilder.rollback_from n es m').2 ∧
  console (SagaBuilder.rollback_from n es m).2
    = console (SagaBuilder.rollback_from n es m').2.
Proof.
  revert m m'. induction n as [|i IH]; intros m m' Hw Hk; [done|].
  cbn. destruct (es !! i) as [step|]; [|done].
  unfold bind.
  destruct (ExecutedStep.rollback step) as [rb|]; [|by apply IH].
  unfold try_catch, await_rollback, console_error. rewrite <- Hw.
  destruct (rb (ExecutedStep.output step) (world m)) as [[[]|e] w].
  - by apply IH.
  - apply IH; cbn; [done|by rewrite Hk].
Qed.

Lemma rollback_from_split n older newer m m' :
  n ≤ length newer →
  world m = world m' → console m = console m' →
  world (SagaBuilder.rollback_from (length older + n) (older ++ newer) m).2
    = world (SagaBuilder.rollback_from (length older) older
               (SagaBuilder.rollback_from n newer m').2).2 ∧
  console (SagaBuilder.rollback_from (length older + n) (older ++ newer) m).2
    = console (SagaBuilder.rollback_from (length older) older
                 (SagaBuilder.rollback_from n newer m').2).2.
Proof.
  revert m m'. induction n as [|i IH]; intros m m' Hn Hw Hk.
  - rewrite Nat.add_0_r, rollback_from_app by done.
    by apply rollback_from_agree.
  - rewrite Nat.add_succ_r. cbn [SagaBuilder.rollback_from].
    rewrite lookup_app_r by lia.
    replace (length older + i - length older) with i by lia.
    destruct (lookup_lt_is_Some_2 newer i) as [step ->]; [lia|].
    unfold bind.
    destruct (ExecutedStep.rollback step) as [rb|]; [|apply IH; [lia|done..]].
    unfold try_catch, await_rollback, console_error. rewrite <- Hw.
    destruct (rb (ExecutedStep.output step) (world m)) as [[[]|e] w].
    + apply IH; [lia|done..].
    + apply IH; cbn; [lia|done|by rewrite Hk].
Qed.

Lemma to_compensate_app_records older newer :
  (to_compensate (older ++ newer)).*2 =
  (to_compensate newer).*2 ++ (to_compensate older).*2.
Proof.
  induction newer as [|x newer IH] using rev_ind.
  - by rewrite app_nil_r.
  - rewrite app_assoc, !to_compensate_snoc, !fmap_app, IH, app_assoc.
    by destruct (ExecutedStep.rollback x).
Qed.

(** X6. Compensation composes: a pass over [older ++ newer] does to
    the world and to the console what a pass over [newer] followed by a
    pass over [older] does, and it invokes the same records in the same
    order. *)
Theorem X6_rollback_of_a_concatenation older newer m :
  let whole := (SagaBuilder.rollback (older ++ newer) m).2 in
  let first := (SagaBuilder.rollback newer m).2 in
  let second := (SagaBuilder.rollback older first).2 in
  world whole = world second ∧
  console whole = console second ∧
  (rollbacks (log_since m whole)).*2 = (rollbacks (log_since m second)).*2.
Proof.
  cbn zeta.
  destruct (rollback_from_split (length newer) older newer m m)
    as [Hw Hk]; [done..|].
  unfold SagaBuilder.rollback. rewrite length_app.
  split; [exact Hw|]. split; [exact Hk|].
  destruct (rollback_spec (older ++ newer) m) as (a & la & Ha & Hca & _ & Hra & _).
  destruct (rollback_spec newer m) as (b & lb & Hb & Hcb & _ & Hrb & _).
  destruct (rollback_spec older b) as (c & lc & Hc & Hcc & _ & Hrc & _).
  unfold SagaBuilder.rollback in Ha, Hb, Hc.
  rewrite length_app in Ha. rewrite Ha, Hb. cbn [snd]. rewrite Hc. cbn [snd].
  rewrite Hcb, <- app_assoc in Hcc.
  rewrite (log_since_app _ _ _ Hca), (log_since_app _ _ _ Hcc).
  by rewrite rollbacks_app, Hra, Hrb, Hrc, fmap_app, to_compensate_app_records.
Qed.

(** X7. Duplicate names in a successful run over ordinary names: the
    results keep, under each name, the output of the last step
    registered under it; their keys are the registered names and
    nothing else. *)
Theorem X7_results_keep_the_last_output this m d r m' j s o :
  Forall (λ s, ordinary (StepDefinition.name s)) (SagaBuilder.steps this) →
  SagaBuilder.run this m = (Normal (Success d r), m') →
  SagaBuilder.steps this !! j = Some s →
  outputs (log_since m m') !! j = Some o →
  (∀ j' s', j < j' → SagaBuilder.steps this !! j' = Some s' →
            StepDefinition.name s' ≠ StepDefinition.name s) →
  r !! StepDefinition.name s = Some o ∧
  dom r = list_to_set (StepDefinition.name <$> SagaBuilder.steps this).
Proof.
  destruct this as [steps]. cbn [SagaBuilder.steps].
  intros Hord Hrun Hs Ho Hlast.
  destruct (run_Success_inv _ _ _ _ _ Hrun) as (l' & Hfor & _ & ->).
  destruct (for_of_Next _ _ _ _ _ Hfor) as (new & Hc & _ & _ & Hlen & _).
  destruct (for_of_Next_ordinary _ _ _ _ _ Hord Hfor) as [_ ->].
  rewrite (log_since_app _ _ _ Hc) in *. cbn. split.
  - apply (assign_lookup_last _ _ j); [by apply named_lookup|].
    intros j' v' Hlt Hj'.
    unfold named in Hj'. apply lookup_zip_with_Some in Hj'
      as (n' & o' & [= <- <-] & Hn' & _).
    apply list_lookup_fmap_Some in Hn' as (s' & Hs' & Hn').
    by apply (Hlast j' s').
  - rewrite assign_dom, named_fst, dom_empty_L by done.
    by rewrite (right_id_L ∅ (∪)).
Qed.

(** X8. Over ordinary names the results only grow while a run goes
    forward: each [execute] invocation has the completion that
    [execute] yields on the context the log holds for it; the keys of
    that context are the names of the steps before it, so a later
    invocation is handed every key an earlier one was handed. *)
Theorem X8_context_keys_only_grow this m c m' i j si ctxi ci sj ctxj cj :
  Forall (λ s, ordinary (StepDefinition.name s)) (SagaBuilder.steps this) →
  SagaBuilder.run this m = (c, m') →
  executes (log_since m m') !! i = Some (si, ctxi, ci) →
  executes (log_since m m') !! j = Some (sj, ctxj, cj) →
  i ≤ j →
  (∃ w, (StepDefinition.execute si (StepDefinition.input si) ctxi w).1 = ci) ∧
  (∃ w, (StepDefinition.execute sj (StepDefinition.input sj) ctxj w).1 = cj) ∧
  dom (StepContext.results ctxi) =
    list_to_set (StepDefinition.name <$> take i (SagaBuilder.steps this)) ∧
  dom (StepContext.results ctxi) ⊆ dom (StepContext.results ctxj).
Proof.
  intros Hord Hrun Hi Hj Hij.
  destruct (run_trace _ _ _ _ Hord Hrun) as (_ & _ & _ & _ & Hg & _).
  apply executes_genuine in Hg.
  split; [exact (proj1 (Forall_lookup _ _) Hg _ _ Hi)|].
  split; [exact (proj1 (Forall_lookup _ _) Hg _ _ Hj)|].
  destruct (run_trace_lookup _ _ _ _ _ _ _ _ Hord Hrun Hi)
    as (Hsi & outsi & Hleni & ->).
  destruct (run_trace_lookup _ _ _ _ _ _ _ _ Hord Hrun Hj)
    as (Hsj & outsj & Hlenj & ->).
  assert (Hdom : ∀ k (outs : list value),
    length outs = k → k ≤ length (SagaBuilder.steps this) →
    dom (assign ∅ (named (take k (SagaBuilder.steps this)) outs)) =
    list_to_set (StepDefinition.name <$> take k (SagaBuilder.steps this))).
  { intros k outs Hk Hle.
    rewrite assign_dom, named_fst, dom_empty_L
      by (by rewrite length_take_le).
    by rewrite (right_id_L ∅ (∪)). }
  apply lookup_lt_Some in Hsi, Hsj.
  rewrite !Hdom by (done || lia). split; [done|].
  intros n. rewrite !elem_of_list_to_set, !fmap_take, !elem_of_take.
  intros (k & Hk & Hlt). exists k. split; [done|lia].
Qed.

(** X9. Forward execution and compensation never interleave: what a
    run adds to the log is a stretch of [execute] invocations followed
    by a stretch of rollback invocations, the second one empty when the
    result is a success. *)
Theorem X9_execution_precedes_compensation this m c m' :
  SagaBuilder.run this m = (c, m') →
  ∃ forward back,
    log_since m m' = forward ++ back ∧
    rollbacks forward = [] ∧
    executes back = [] ∧
    ((∃ d r, c = Normal (Success d r)) → back = []).
Proof.
  destruct this as [steps]. intros Hrun.
  pose proof (run_for_of_calls {| SagaBuilder.steps := steps |} m) as Hcalls.
  rewrite Hrun in Hcalls. cbn in Hcalls.
  rewrite run_eq in Hrun. cbn [SagaBuilder.steps] in Hrun.
  destruct (SagaBuilder.for_of steps SagaBuilder.entry m) as [c0 m0] eqn:Hfor.
  cbn in Hcalls.
  assert ((∃ l', c0 = Normal (SagaBuilder.Next l')) ∨
          (∀ l', c0 ≠ Normal (SagaBuilder.Next l'))) as [[l' ->]|Hno].
  { destruct c0 as [[|]|]; [left; eauto|right; intros ? [=]..]. }
  - destruct (for_of_Next _ _ _ _ _ Hfor) as (new & Hc & _ & Hr & _).
    rewrite <- Hcalls in Hc.
    exists new, []. rewrite (log_since_app _ _ _ Hc), app_nil_r. done.
  - destruct (for_of_stop _ _ _ _ _ Hfor Hno)
      as (before & s & after & l1 & m1 & _ & Hb & Hit).
    destruct (for_of_Next _ _ _ _ _ Hb) as (new & Hc & _ & Hr & _).
    destruct (iteration_log _ _ _ _ _ Hit) as (comp & comps & Hc' & Hec & _ & Hcase).
    rewrite <- Hcalls, Hc in Hc'. rewrite <- app_assoc in Hc'.
    eexists (new ++ [_]), comps.
    rewrite (log_since_app _ _ _ Hc'), <- app_assoc. cbn [app].
    split_and!; [done| |done|].
    + by rewrite rollbacks_app, Hr.
    + intros (d & r & ->).
      destruct c0 as [[l'|r0]|e0].
      * by destruct (Hno l').
      * destruct Hcase as [(? & ->) _]. by injection Hrun.
      * rewrite guarded_throw in Hrun.
        by destruct (SagaBuilder.normalize e0 m0) as [[] ?].
Qed.

Lemma chain_allocated (defs : list StepDefinition.t) (this : nat)
    (p : Store.Program) b :
  Store.heap p !! this = Some b →
  Store.chain this defs p =
  (Normal this,
   {| Store.heap :=
        <[this := {| SagaBuilder.steps := SagaBuilder.steps b ++ defs |}]>
          (Store.heap p);
      Store.machine := Store.machine p |}).
Proof.
  revert p b. induction defs as [|d defs IH]; intros p b Hb.
  - cbn. rewrite app_nil_r. destruct p as [h mm], b as [st]. cbn in *.
    by rewrite list_insert_id.
  - cbn [Store.chain]. unfold Store.bind, Store.step. rewrite Hb.
    assert (this < length (Store.heap p)) by (by eapply lookup_lt_Some).
    erewrite IH by (cbn; by apply list_lookup_insert_eq).
    cbn. rewrite list_insert_insert_eq, <- app_assoc.
    by destruct d.
Qed.

(** X10. The fluent chain keeps the registration order:
    [createSaga()] followed by one [step] call per definition, each on
    the reference the previous call returned, yields a new builder whose
    steps are exactly those definitions, in order; nothing has been
    executed, and the builders that existed before are as they were. A
    run through the reference is the run over those definitions. *)
Theorem X10_chain_registers_in_order (defs : list StepDefinition.t)
    (p : Store.Program) :
  ∃ p',
    Store.bind Store.createSaga (λ saga, Store.chain saga defs) p
      = (Normal (length (Store.heap p)), p') ∧
    Store.steps_of (length (Store.heap p)) p' = Some defs ∧
    Store.machine p' = Store.machine p ∧
    (∀ other, other < length (Store.heap p) →
              Store.heap p' !! other = Store.heap p !! other) ∧
    (Store.run (length (Store.heap p)) p').1 =
      (SagaBuilder.run {| SagaBuilder.steps := defs |} (Store.machine p)).1.
Proof.
  unfold Store.bind, Store.createSaga.
  erewrite chain_allocated by (cbn; apply list_lookup_middle; done).
  eexists. split; [reflexivity|].
  unfold Store.steps_of, Store.run. cbn.
  rewrite list_lookup_insert_eq by (rewrite length_app; cbn; lia).
  cbn. split_and!; [done|done| |].
  - intros other Hlt.
    rewrite list_lookup_insert_ne by lia. by rewrite lookup_app_l.
  - by destruct (SagaBuilder.run _ _).
Qed.

Lemma rollback_from_nothing n es m :
  Forall (λ step, ExecutedStep.rollback step = None) es →
  n ≤ length es →
  SagaBuilder.rollback_from n es m = (Normal (), m).
Proof.
  intros Hall. induction n as [|i IH]; intros Hn; [done|].
  cbn. destruct (lookup_lt_is_Some_2 es i) as [step Hstep]; [lia|].
  rewrite Hstep.
  rewrite (proj1 (Forall_lookup _ _) Hall i step Hstep).
  unfold bind, ret. apply IH. lia.
Qed.

(** X11. Records none of which has a rollback operation make the
    whole pass a no-op: it completes at once, on the machine it was
    started on. *)
Theorem X11_nothing_to_compensate es m :
  Forall (λ step, ExecutedStep.rollback step = None) es →
  SagaBuilder.rollback es m = (Normal (), m).
Proof. intros Hall. by apply rollback_from_nothing. Qed.

(** X12. Over ordinary, distinct names, in a run in which every
    [execute] invocation returns, [run] returns a success result; every
    step was executed once, in order; the results map holds, under each
    step's name, the output that step returned, and has no other entry
    (one entry per step); [data] is the output of the last step. With no
    step at all the result is a success with empty results and
    [undefined] data. *)
Theorem X12_success_results this m c m' :
  Forall (λ s, ordinary (StepDefinition.name s)) (SagaBuilder.steps this) →
  SagaBuilder.run this m = (c, m') →
  Forall (λ x, ∃ o, x.2 = Normal o) (executes (log_since m m')) →
  NoDup (StepDefinition.name <$> SagaBuilder.steps this) →
  ∃ outs res,
    c = Normal (Success (default VUndefined (last outs)) res) ∧
    outputs (log_since m m') = outs ∧
    length outs = length (SagaBuilder.steps this) ∧
    (executes (log_since m m')).*1.*1 = SagaBuilder.steps this ∧
    (∀ i s o, SagaBuilder.steps this !! i = Some s → outs !! i = Some o →
              res !! StepDefinition.name s = Some o) ∧
    dom res = list_to_set (StepDefinition.name <$> SagaBuilder.steps this) ∧
    size res = length (SagaBuilder.steps this) ∧
    (SagaBuilder.steps this = [] → c = Normal (Success VUndefined ∅)).
Proof.
  destruct this as [steps]. cbn [SagaBuilder.steps].
  intros Hord Hrun Hall Hnd.
  destruct (run_cases _ _ _ _ Hord Hrun)
    as [(l' & Hfor & ->)|(before & s & after & d & r & m1 & e & w & -> & Hpre & Hex)].
  - destruct (for_of_Next _ _ _ _ _ Hfor)
      as (new & Hc & _ & _ & Hlen & He & _).
    destruct (for_of_Next_ordinary _ _ _ _ _ Hord Hfor) as [_ ->].
    rewrite (log_since_app _ _ _ Hc) in *. cbn.
    exists (outputs new), (assign ∅ (named steps (outputs new))).
    split_and!; try done.
    + intros i s o Hs Ho.
      apply (assign_lookup_NoDup _ _ i).
      * by rewrite named_fst.
      * by apply named_lookup.
    + rewrite assign_dom, named_fst, dom_empty_L by done.
      by rewrite (right_id_L ∅ (∪)).
    + rewrite assign_size by (by rewrite named_fst).
      unfold named. rewrite length_zip_with, length_fmap. lia.
    + intros ->. by destruct (outputs new).
  - exfalso.
    destruct (run_failure_log before s after _ _ _ _ _ _ Hpre Hex)
      as (m2 & comps & _ & Hlog & _ & _ & _ & _ & _ & _ & _ & _ & _ & _ & Hrun').
    rewrite Hrun in Hrun'. symmetry in Hrun'.
    destruct (guarded_failure_inv _ _ _ _ _ Hrun') as (Hc & _).
    rewrite (log_since_same m _ _ Hc), Hlog, !executes_app in Hall.
    apply Forall_app in Hall as [_ Hall].
    apply Forall_cons in Hall as [(? & [=]) _].
Qed.

(** X13. What a step receives. Steps 1..k-1, of ordinary names, succeed
    (a run of them alone returns a success result, with results [r],
    ending in machine [m1]). Then the run of the whole saga invokes the
    [execute] of the k-th step [s] next, in the world those steps left,
    on the context whose results are [r], and goes on from the
    completion of that very application; [r] holds the results assigned,
    in turn, under the names of steps 1..k-1 to the outputs they
    returned: nothing under any other name, and, when those names are
    distinct, under the name of each of them the output it returned. *)
Theorem X13_context_received before s after m d r m1 :
  Forall (λ s, ordinary (StepDefinition.name s)) before →
  SagaBuilder.run {| SagaBuilder.steps := before |} m
    = (Normal (Success d r), m1) →
  (∃ rest,
     log_since m
       (SagaBuilder.run {| SagaBuilder.steps := before ++ s :: after |} m).2 =
     log_since m m1 ++
     CallExecute s {| StepContext.results := r |}
       (StepDefinition.execute s (StepDefinition.input s)
          {| StepContext.results := r |} (world m1)).1
     :: rest) ∧
  length (outputs (log_since m m1)) = length before ∧
  r = assign ∅ (named before (outputs (log_since m m1))) ∧
  (∀ n, n ∉ StepDefinition.name <$> before → r !! n = None) ∧
  (NoDup (StepDefinition.name <$> before) →
   ∀ j sj o, before !! j = Some sj → outputs (log_since m m1) !! j = Some o →
             r !! StepDefinition.name sj = Some o).
Proof.
  intros Hord Hpre.
  destruct (run_Success_inv _ _ _ _ _ Hpre) as (l1 & Hb & _ & ->).
  destruct (for_of_Next _ _ _ _ _ Hb) as (new & Hc & _ & _ & Hlen & _).
  destruct (for_of_Next_ordinary _ _ _ _ _ Hord Hb) as [_ Hl1].
  rewrite (log_since_app _ _ _ Hc) in *.
  assert (Hr : SagaBuilder.results l1 = assign ∅ (named before (outputs new)))
    by (by rewrite Hl1).
  split_and!.
  - unfold log_since. rewrite run_for_of_calls. cbn [SagaBuilder.steps].
    rewrite for_of_app, Hb, for_of_cons.
    destruct (SagaBuilder.iteration s l1 m1) as [c1 m2] eqn:Hit.
    destruct (iteration_call _ _ _ _ _ Hit) as (comps & Hc2).
    assert (∃ more, calls
      (match c1 with
       | Normal (SagaBuilder.Next l') => SagaBuilder.for_of after l' m2
       | Normal (SagaBuilder.Return r) =>
           (Normal (SagaBuilder.Return r), m2)
       | Throw e => (Throw e, m2)
       end).2 = calls m2 ++ more) as [more Hmore].
    { destruct c1 as [[l'|r0]|e0]; [|exists []; by rewrite app_nil_r..].
      destruct (SagaBuilder.for_of after l' m2) as [c3 m3] eqn:Hafter.
      by apply for_of_extends in Hafter. }
    exists (comps ++ more).
    rewrite Hmore, Hc2, Hc, <- !app_assoc, drop_app_length. done.
  - done.
  - done.
  - intros n Hn. rewrite Hr, assign_lookup_other, ?lookup_empty; [done|].
    by rewrite named_fst.
  - intros Hnd j sj o Hs Ho.
    rewrite Hr. apply (assign_lookup_NoDup _ _ j).
    + by rewrite named_fst.
    + by apply named_lookup.
Qed.

(** X14. Steps [si] and [sj], at positions [i < j] among steps of
    ordinary names, have the same name, no later step before the
    failing one has it, both succeed (returning [oi] and [oj]) and a
    later step throws. Then the results hold [oj] under that name, and
    the compensation pass invokes no record twice, the record at [j]
    being that of [sj] with output [oj] and the record at [i] that of
    [si] with output [oi]; the pass leaves the world that applying each
    rollback operation to the output of its own step, newest first,
    makes of the world the failing call left. *)
Theorem X14_duplicate_names_keep_their_records
    before s after m d r m1 e w i j si sj oi oj :
  Forall (λ s, ordinary (StepDefinition.name s)) before →
  SagaBuilder.run {| SagaBuilder.steps := before |} m
    = (Normal (Success d r), m1) →
  StepDefinition.execute s (StepDefinition.input s)
    {| StepContext.results := r |} (world m1) = (Throw e, w) →
  i < j →
  before !! i = Some si → before !! j = Some sj →
  StepDefinition.name si = StepDefinition.name sj →
  (∀ j' s', j < j' → before !! j' = Some s' →
            StepDefinition.name s' ≠ StepDefinition.name sj) →
  outputs (log_since m m1) !! i = Some oi →
  outputs (log_since m m1) !! j = Some oj →
  r !! StepDefinition.name sj = Some oj ∧
  ∃ m2,
    SagaBuilder.rollback
      (zip_with record before (outputs (log_since m m1)))
      {| world := w;
         calls := calls m1 ++
           [CallExecute s {| StepContext.results := r |} (Throw e)];
         console := console m1 |} = (Normal (), m2) ∧
    SagaBuilder.run {| SagaBuilder.steps := before ++ s :: after |} m =
      SagaBuilder.guarded
        (error <- SagaBuilder.normalize e ;;
         ret (Failed error (StepDefinition.name s))) m2 ∧
    world m2 =
      compensation
        (reverse (zip_with record before (outputs (log_since m m1)))) w ∧
    Forall genuine (log_since m m2) ∧
    NoDup (rollbacks (log_since m m2)).*1 ∧
    (∀ step, (i, step) ∈ rollbacks (log_since m m2) ↔
             step = record si oi ∧ is_Some (StepDefinition.rollback si)) ∧
    (∀ step, (j, step) ∈ rollbacks (log_since m m2) ↔
             step = record sj oj ∧ is_Some (StepDefinition.rollback sj)).
Proof.
  intros Hord Hpre Hex Hij Hsi Hsj Hname Hlast Hoi Hoj.
  destruct (run_failure_log before s after _ _ _ _ _ _ Hpre Hex)
    as (m2 & comps & Hrb & Hlog & _ & _ & Hr & Hlen & _ & _ & Hrc & _ & Hg
        & Hw & Hrun).
  split.
  - destruct (run_Success_inv _ _ _ _ _ Hpre) as (l1 & Hb & _ & ->).
    destruct (for_of_Next_ordinary _ _ _ _ _ Hord Hb) as [_ ->]. cbn.
    apply (assign_lookup_last _ _ j); [by apply named_lookup|].
    intros j' v' Hlt Hj'.
    unfold named in Hj'. apply lookup_zip_with_Some in Hj'
      as (n' & o' & [= <- <-] & Hn' & _).
    apply list_lookup_fmap_Some in Hn' as (s' & Hs' & Hn').
    by apply (Hlast j' s').
  - exists m2. split; [done|]. split; [done|]. split; [done|].
    split; [done|].
    rewrite Hlog, rollbacks_app, Hr.
    change (rollbacks (?c :: comps)) with (rollbacks comps).
    rewrite Hrc, app_nil_l. split_and!.
    + apply to_compensate_indices_NoDup.
    + intros step. rewrite elem_of_to_compensate, lookup_zip_with_Some.
      split.
      * intros [(si' & oi' & -> & Hsi' & Hoi') Hrb'].
        rewrite Hsi in Hsi'. rewrite Hoi in Hoi'. by simplify_eq.
      * intros [-> Hrb']. split; [|done]. eauto.
    + intros step. rewrite elem_of_to_compensate, lookup_zip_with_Some.
      split.
      * intros [(sj' & oj' & -> & Hsj' & Hoj') Hrb'].
        rewrite Hsj in Hsj'. rewrite Hoj in Hoj'. by simplify_eq.
      * intros [-> Hrb']. split; [|done]. eauto.
Qed.
End Further.

(** * The engine on the sagas of the test suite *)

Import Tests.

(** C1. The inner saga of the nested-rollback test runs to success, and
    the success value has the properties [status], [data] and [results]
    only: there is no [rollback] on it for the test to call. *)
Theorem C1_success_value_has_no_rollback :
  ∃ data results m',
    SagaBuilder.run inner start = (Normal (Success data results), m') ∧
    own_keys (Success data results) = ["status"; "data"; "results"] ∧
    ("rollback" ∉ own_keys (Success data results)) ∧
    world m' = [].
Proof.
  eexists _, _, _. split; [vm_compute; reflexivity|].
  split_and!; [done| |done].
  cbn. intros Hin. by repeat (apply elem_of_cons in Hin as [?|Hin]; [done|]);
    apply elem_of_nil in Hin.
Qed.

(** C9 fails as stated: [c1] and [c2] are built from the same base, and
    appending step "c" through the base changes the steps that a run
    through [c1] executes from a, b to a, b, c. *)
Lemma C9_counterexample :
  ∃ base c1 c2 p1 p2,
    one_chain fresh = (Normal (base, c1), p1) ∧
    Store.step base "c" VUndefined (returns_id 3) None p1 = (Normal c2, p2) ∧
    c1 = base ∧ c2 = base ∧
    executed_names c1 p1 = ["a"; "b"] ∧
    executed_names c1 p2 = ["a"; "b"; "c"] ∧
    executed_names c1 p2 ≠ executed_names c1 p1.
Proof.
  eexists _, _, _, _, _.
  split; [vm_compute; reflexivity|].
  split; [vm_compute; reflexivity|].
  split; [reflexivity|]. split; [reflexivity|].
  split; [vm_compute; reflexivity|].
  split; [vm_compute; reflexivity|].
  vm_compute. discriminate.
Qed.

(** ** Instances *)

(** 'should handle empty saga' *)
Example empty_saga :
  SagaBuilder.run SagaBuilder.new start
    = (Normal (Success VUndefined ∅), start).
Proof. reflexivity. Qed.

(** 'should handle steps without rollback functions': only step1 is
    compensated. *)
Example only_step1_compensated :
  world (SagaBuilder.run without_rollback start).2 = ["step1-rollback-1"] ∧
  rollbacks (calls (SagaBuilder.run without_rollback start).2)
    = [(0, record step1 (with_id 1))].
Proof. split; vm_compute; reflexivity. Qed.

(** A run can throw: the step throws an object whose conversion to
    text throws the object again, in the handler of the step and then
    in the outer handler. *)
Example selfish_rejects :
  (SagaBuilder.run throws_selfish start).1 = Throw (VOpaque Selfish).
Proof. vm_compute; reflexivity. Qed.

(** A step that reads its context is handed the output of the step
    before it. *)
Example copy_reads_step1 :
  outputs (log_since start (SagaBuilder.run reads_context start).2)
    = [with_id 1; with_id 1].
Proof. vm_compute; reflexivity. Qed.

(** ** Counterexamples *)


(** C4 fails as stated: the rollback of step2 throws and is reported,
    step1 is still compensated, but the error of the result is not the
    failure of "pay", the thrown [Object.create(null)], nor what
    normalizing it yields (nothing: it throws): it is the TypeError of
    the conversion to text. *)
Lemma C4_counterexample :
  ∃ m',
    SagaBuilder.run bare_after_bad_rollback start
      = (Normal (Failed TypeError_primitive "orchestrator"), m') ∧
    last (executes (log_since start m')).*2 = Some (Throw (VOpaque Bare)) ∧
    console m' =
      [("Rollback failed for step2:", VError "Error" "Rollback failed")] ∧
    world m' = ["step2-rollback-started"; "step1-rollback-1"] ∧
    TypeError_primitive ≠ VOpaque Bare ∧
    (∀ m, (SagaBuilder.normalize (VOpaque Bare) m).1
          = Throw TypeError_primitive).
Proof.
  eexists. split; [vm_compute; reflexivity|].
  split; [vm_compute; reflexivity|].
  split; [vm_compute; reflexivity|].
  split; [vm_compute; reflexivity|].
  split; [discriminate|]. intros m. reflexivity.
Qed.

(** C5 fails as stated: the value thrown, [Object.create(null)], is not
    an Error object and has no conversion to text; the error of the
    result is not a wrapper of its text but the TypeError of the
    conversion, and the failure is not attributed to the step. *)
Lemma C5_counterexample :
  ∃ m',
    SagaBuilder.run throws_bare start
      = (Normal (Failed TypeError_primitive "orchestrator"), m') ∧
    (∀ m, (SagaBuilder.instanceof_Error (VOpaque Bare) m).1 = Normal false) ∧
    (∀ m, (SagaBuilder.String_ (VOpaque Bare) m).1
          = Throw TypeError_primitive) ∧
    TypeError_primitive ≠ VOpaque Bare ∧
    message_of TypeError_primitive
      = Some "Cannot convert object to primitive value".
Proof.
  eexists. split; [vm_compute; reflexivity|].
  split; [intros m; reflexivity|].
  split; [intros m; reflexivity|].
  split; [discriminate|reflexivity].
Qed.

(** C7 fails as stated: the name "orchestrator" is not reserved. A step
    is registered under it and succeeds; the next step throws
    [Object.create(null)], whose conversion to text throws out of the
    handler of the step; the failed result is attributed to
    "orchestrator", the name of a registered step. *)
Lemma C7_counterexample :
  ∃ error m',
    SagaBuilder.run named_orchestrator start
      = (Normal (Failed error "orchestrator"), m') ∧
    "orchestrator" ∈
      StepDefinition.name <$> SagaBuilder.steps named_orchestrator ∧
    (executes (log_since start m')).*2 =
      [Normal (with_id 1); Throw (VOpaque Bare)].
Proof.
  eexists _, _. split; [vm_compute; reflexivity|].
  split; [compute_done|vm_compute; reflexivity].
Qed.

(** ** Failing inputs *)

(** C3. A step registered under the name [__proto__] returns 'paid' and
    the step after it returns too: names distinct, every [execute]
    returned, a success result, and yet the results have no entry under
    [__proto__]: one entry for two steps. *)
Theorem C3_results_miss_a_step :
  ∃ data results m',
    SagaBuilder.run named_proto start
      = (Normal (Success data results), m') ∧
    NoDup (StepDefinition.name <$> SagaBuilder.steps named_proto) ∧
    (executes (log_since start m')).*2 =
      [Normal (VString "paid"); Normal (VString "missing")] ∧
    results !! "__proto__" = None ∧
    size results = 1 ∧
    length (SagaBuilder.steps named_proto) = 2.
Proof.
  eexists _, _, _. split; [vm_compute; reflexivity|].
  split; [compute_done|].
  split; [vm_compute; reflexivity|].
  split; [vm_compute; reflexivity|].
  split; [vm_compute; reflexivity|reflexivity].
Qed.

(** C6. The step registered under [__proto__] has succeeded when the
    step "next" is executed, and the context that "next" is handed has
    no entry for it: "next", which looks for that key, returns
    'missing'. *)
Theorem C6_context_misses_a_step :
  executes (log_since start (SagaBuilder.run named_proto start).2) =
    [ (paid, {| StepContext.results := ∅ |}, Normal (VString "paid"));
      (next, {| StepContext.results := ∅ |}, Normal (VString "missing")) ] ∧
  StepDefinition.execute next (StepDefinition.input next)
    {| StepContext.results := <["__proto__" := VString "paid"]> ∅ |} []
    = (Normal (VString "seen"), []).
Proof. split; vm_compute; reflexivity. Qed.

(** C10. Two steps registered under [__proto__] return 'first' and
    'second', a step looks for that key in its context, and the last
    step throws: each record is compensated on its own output, but the
    results never held an entry for the later output to overwrite. *)
Theorem C10_duplicates_without_an_entry :
  ∃ error m',
    SagaBuilder.run duplicate_proto start
      = (Normal (Failed error "notify"), m') ∧
    outputs (log_since start m') =
      [VString "first"; VString "second"; VString "missing"] ∧
    Forall (λ x, StepContext.results x.1.2 !! "__proto__" = None)
      (executes (log_since start m')) ∧
    world m' = ["undo-second"; "undo-first"].
Proof.
  eexists _, _. split; [vm_compute; reflexivity|].
  split; [vm_compute; reflexivity|].
  split; [|vm_compute; reflexivity].
  vm_compute. repeat constructor.
Qed.

(** ** Instances of the theorems *)


(** 'should continue rollback even if one rollback fails': the rollback
    of step2 throws; it is reported, step1 is still compensated, and the
    error of the result is that of step3. *)
Lemma C4_witness :
  ∃ m',
    SagaBuilder.run rollback_fails start
      = (Normal (Failed (VError "Error" "Step 3 failed") "step3"), m') ∧
    console m' =
      [("Rollback failed for step2:", VError "Error" "Rollback failed")] ∧
    world m' = ["step2-rollback-started"; "step1-rollback-1"].
Proof.
  edestruct (proj2 C4_rollback_failures_are_contained
               [step1; step2_bad_rollback] step3 [] start)
    as (error & m2 & m' & Hrun & _ & _ & _ & _ & Herr);
    [vm_compute; reflexivity|vm_compute; reflexivity
    |intros m; eexists _, _; reflexivity|].
  rewrite (Herr _ _ eq_refl) in Hrun.
  exists m'. split; [exact Hrun|].
  replace m' with (SagaBuilder.run rollback_fails start).2
    by (unfold rollback_fails; cbn [app] in Hrun; by rewrite Hrun).
  split; vm_compute; reflexivity.
Defined.

(** 'should return error with non-Error thrown values' *)
Lemma C5_witness :
  ∃ error m',
    SagaBuilder.run string_error start = (Normal (Failed error "step1"), m') ∧
    message_of error = Some "String error".
Proof.
  edestruct (C5_thrown_value_is_normalized []
               (Step "step1" (throws (VString "String error")) None) [] start)
    as (m2 & _ & _ & _ & Hrun);
    [vm_compute; reflexivity|vm_compute; reflexivity|].
  exists (new_Error "String error"), m2.
  split; [exact (Hrun eq_refl)|reflexivity].
Defined.

(** step1 succeeds and "pay" throws [Object.create(null)]: step1 is
    compensated, the conversion to text throws a TypeError, and the run
    returns it in a failed result at "orchestrator". *)
Lemma C7_witness :
  ∃ m',
    SagaBuilder.run throws_bare start
      = (Normal (Failed TypeError_primitive "orchestrator"), m') ∧
    rollbacks (log_since start m') = [(0, record step1 (with_id 1))] ∧
    world m' = ["step1-rollback-1"].
Proof.
  edestruct (C7_escaping_error_is_a_failed_result [step1] pay [] start)
    as (Hrun & _ & Hrb & _);
    [vm_compute; reflexivity|vm_compute; reflexivity|vm_compute; reflexivity
    |vm_compute; reflexivity|vm_compute; reflexivity|].
  eexists. split; [exact Hrun|].
  split; vm_compute; reflexivity.
Defined.

(** The records of 'should handle steps without rollback functions':
    the pass over step1 and step2 is the pass over step1. *)
Lemma C8_witness :
  SagaBuilder.rollback
    [record step1 (with_id 1); record step2_plain (with_id 2)] start =
  SagaBuilder.rollback [record step1 (with_id 1)] start.
Proof.
  destruct (C8_at_most_one_rollback_per_record
              [record step1 (with_id 1); record step2_plain (with_id 2)] start)
    as (m' & _ & _ & _ & Hskip).
  apply (Hskip [record step1 (with_id 1)] (record step2_plain (with_id 2)));
    reflexivity.
Defined.

(** A builder holding step "a", at reference 0: appending "b" through
    that reference returns the reference and leaves the machine alone. *)
Lemma C9_witness :
  ∃ p',
    Store.step 0 "b" VUndefined (returns_id 2) None
      {| Store.heap := [ {| SagaBuilder.steps := [Step "a" (returns_id 1) None] |} ];
         Store.machine := start |} = (Normal 0, p') ∧
    Store.machine p' = start.
Proof.
  edestruct (C9_step_appends_to_the_shared_builder 0 "b" VUndefined
               (returns_id 2) None
               {| Store.heap :=
                    [ {| SagaBuilder.steps := [Step "a" (returns_id 1) None] |} ];
                  Store.machine := start |})
    as (p' & Hstep & Hm & _); [reflexivity|].
  exists p'. split; [exact Hstep|exact Hm].
Defined.

(** The inner saga of the nested-saga test: both steps return; the
    results hold both outputs and [data] is the second. *)
Lemma X12_witness :
  ∃ res m',
    SagaBuilder.run inner start = (Normal (Success (with_id 2) res), m') ∧
    res !! "innerStep1" = Some (with_id 1) ∧
    res !! "innerStep2" = Some (with_id 2) ∧
    size res = 2.
Proof.
  edestruct (X12_success_results inner start)
    as (outs & res & Hc & Houts & Hlen & _ & Hres & _ & Hsize & _).
  - repeat constructor.
  - reflexivity.
  - vm_compute. repeat constructor; eexists; reflexivity.
  - compute_done.
  - vm_compute in Houts. subst outs.
    exists res, (SagaBuilder.run inner start).2.
    split_and!.
    + rewrite (surjective_pairing (SagaBuilder.run inner start)).
      f_equal. exact Hc.
    + apply (Hres 0 (Step "innerStep1" (returns_id 1)
                       (Some (pushes "innerStep1-rollback")))); reflexivity.
    + apply (Hres 1 (Step "innerStep2" (returns_id 2)
                       (Some (pushes "innerStep2-rollback")))); reflexivity.
    + exact Hsize.
Defined.

(** After step1, the step "copy", which returns what its context holds
    under "step1", is invoked on the results holding [{ id: 1 }] there
    and returns [{ id: 1 }]. *)
Lemma X13_witness :
  ∃ rest,
    log_since start (SagaBuilder.run reads_context start).2 =
    [CallExecute step1 {| StepContext.results := ∅ |} (Normal (with_id 1));
     CallExecute copy
       {| StepContext.results := <["step1" := with_id 1]> ∅ |}
       (Normal (with_id 1))] ++ rest.
Proof.
  edestruct (X13_context_received [step1] copy [step3] start)
    as ((rest & Hlog) & _); [repeat constructor|vm_compute; reflexivity|].
  exists rest. unfold reads_context. cbn [app] in Hlog. rewrite Hlog.
  vm_compute. reflexivity.
Defined.

(** Two steps named "charge" return [{ id: 1 }] and [{ id: 2 }], then
    "notify" throws: the results hold [{ id: 2 }] under "charge", and the
    two records are compensated each on its own output. *)
Lemma X14_witness :
  ∃ (r : gmap string value) m2,
    r !! "charge" = Some (with_id 2) ∧
    (rollbacks (log_since start m2)).*1 = [1; 0] ∧
    ExecutedStep.output <$> (rollbacks (log_since start m2)).*2
      = [with_id 2; with_id 1] ∧
    world m2 = ["refund-2"; "refund-1"].
Proof.
  edestruct (X14_duplicate_names_keep_their_records
               [Step "charge" (returns_id 1) (Some (pushes "refund"));
                Step "charge" (returns_id 2) (Some (pushes "refund"))]
               (Step "notify" (throws (VString "down")) None) [] start)
    with (i := 0) (j := 1)
    as (Hr & m2 & Hrb & _).
  - repeat constructor.
  - vm_compute; reflexivity.
  - vm_compute; reflexivity.
  - lia.
  - reflexivity.
  - reflexivity.
  - reflexivity.
  - intros [|[|j']] s' Hlt Hs'; [lia|lia|done].
  - vm_compute; reflexivity.
  - vm_compute; reflexivity.
  - eexists _, m2. split; [exact Hr|].
    vm_compute in Hrb. injection Hrb as <-.
    split_and!; vm_compute; reflexivity.
Defined.

(** The inner saga of the nested-saga test succeeds: two log entries,
    no rollback, a silent console. *)
Lemma X1_witness :
  rollbacks (log_since start (SagaBuilder.run inner start).2) = [] ∧
  console (SagaBuilder.run inner start).2 = [] ∧
  length (log_since start (SagaBuilder.run inner start).2) = 2.
Proof.
  edestruct (X1_success_compensates_nothing inner start)
    as (Hr & Hk & _ & Hlen); [vm_compute; reflexivity|].
  split; [exact Hr|]. split; [exact Hk|exact Hlen].
Defined.

(** 'should rollback all steps on failure' is no success: some
    [execute] invocation threw. *)
Lemma X2_witness :
  ¬ Forall (λ x, ∃ o, x.2 = Normal o)
      (executes (log_since start (SagaBuilder.run rollback_all start).2)).
Proof.
  intros Hall.
  apply (X2_success_iff_no_execute_threw rollback_all start _ _
           ltac:(repeat constructor) (surjective_pairing _))
    in Hall as (d & r & Hc).
  vm_compute in Hc. discriminate Hc.
Defined.

(** 'should return error with non-Error thrown values': the step named
    is the one that threw. *)
Lemma X3_witness :
  ∃ pre s ctx e,
    executes (log_since start (SagaBuilder.run string_error start).2)
      = pre ++ [(s, ctx, Throw e)] ∧
    SagaBuilder.steps string_error !! length pre = Some s.
Proof.
  edestruct (X3_failed_result_names_the_thrower string_error start)
    as (pre & s & ctx & e & m2 & Hlog & Hs & _);
    [repeat constructor|vm_compute; reflexivity|].
  exists pre, s, ctx, e. split; [exact Hlog|exact Hs].
Defined.

(** Appending step1 after the throwing step3 changes nothing. *)
Lemma X4_witness :
  SagaBuilder.run {| SagaBuilder.steps := [step1; step2] ++ step3 :: [step1] |}
    start =
  SagaBuilder.run {| SagaBuilder.steps := [step1; step2] ++ [step3] |} start.
Proof.
  eapply (X4_steps_after_a_failure_are_ignored [step1; step2] step3 [step1] start);
    vm_compute; reflexivity.
Defined.

(** In 'should rollback all steps on failure' the run ends where the
    pass over the records of step1 and step2, and then the
    normalization of the error, end. *)
Lemma X5_witness :
  ∃ m1 w e,
    SagaBuilder.run rollback_all start =
    SagaBuilder.guarded
      (error <- SagaBuilder.normalize e ;; ret (Failed error "step3"))
      (SagaBuilder.rollback
         (zip_with record [step1; step2] (outputs (log_since start m1)))
         {| world := w;
            calls := calls m1 ++
              [CallExecute step3
                 {| StepContext.results :=
                      <["step2" := with_id 2]> (<["step1" := with_id 1]> ∅) |}
                 (Throw e)];
            console := console m1 |}).2.
Proof.
  eexists _, _, _.
  eapply (X5_failure_ends_where_rollback_ends [step1; step2] step3 [] start);
    vm_compute; reflexivity.
Defined.

(** Two steps named "charge" return [{ id: 1 }] and [{ id: 2 }]: the
    results hold [{ id: 2 }]. *)
Lemma X7_witness :
  ∃ d r m',
    SagaBuilder.run duplicate_success start = (Normal (Success d r), m') ∧
    r !! "charge" = Some (with_id 2).
Proof.
  eexists _, _, _. split; [vm_compute; reflexivity|].
  eapply (X7_results_keep_the_last_output duplicate_success start _ _ _ 1
            (Step "charge" (returns_id 2) None)).
  - repeat constructor.
  - vm_compute; reflexivity.
  - reflexivity.
  - vm_compute; reflexivity.
  - intros [|[|j']] s' Hlt Hs'; [lia|lia|done].
Defined.

(** In 'should rollback all steps on failure' step2 is handed the key
    "step1", and step3 every key step2 was handed. *)
Lemma X8_witness :
  ∃ ctx2 ctx3,
    executes (log_since start (SagaBuilder.run rollback_all start).2) !! 1
      = Some (step2, ctx2, Normal (with_id 2)) ∧
    executes (log_since start (SagaBuilder.run rollback_all start).2) !! 2
      = Some (step3, ctx3, Throw (VError "Error" "Step 3 failed")) ∧
    dom (StepContext.results ctx2) ⊆ dom (StepContext.results ctx3).
Proof.
  eexists _, _.
  split; [vm_compute; reflexivity|]. split; [vm_compute; reflexivity|].
  eapply (X8_context_keys_only_grow rollback_all start _ _ 1 2).
  - repeat constructor.
  - apply surjective_pairing.
  - vm_compute; reflexivity.
  - vm_compute; reflexivity.
  - lia.
Defined.

(** The log of 'should continue rollback even if one rollback fails'
    splits into a forward stretch and a compensation stretch. *)
Lemma X9_witness :
  ∃ forward back,
    log_since start (SagaBuilder.run rollback_fails start).2 = forward ++ back ∧
    rollbacks forward = [] ∧
    executes back = [].
Proof.
  edestruct (X9_execution_precedes_compensation rollback_fails start)
    as (forward & back & Hlog & Hr & He & _); [apply surjective_pairing|].
  exists forward, back. split; [exact Hlog|]. split; [exact Hr|exact He].
Defined.

(** The records of two steps registered without rollback operations. *)
Lemma X11_witness :
  SagaBuilder.rollback
    [record step2_plain (with_id 2); record step2_plain (with_id 2)] start
    = (Normal (), start).
Proof.
  apply X11_nothing_to_compensate.
  repeat constructor.
Defined.
